(** * Residuals between pulse arrival times and a timing model

    A shallow embedding of [src/pint/residuals.py]: the classes
    [Residuals], [WidebandDMResiduals] and [CombinedResiduals].

    Numerics.  The Python code computes with numpy arrays of extended
    precision floating point numbers.  The embedding is parametric in the
    scalar arithmetic (class [Numeric]): every method is written once, over
    an arbitrary carrier with the operations the code uses.  Theorems that
    need no algebraic law hold for every arithmetic; the one that needs the
    field laws and a square root is stated over the real numbers.  An
    executable instance over the rationals is used to run the methods on
    concrete inputs.

    Effects.  Python exceptions are results [Raise e]; attribute assignment
    on [self] is explicit state passing; [log.warning] appends to a log. *)

From Stdlib Require Import String Ascii NArith ZArith QArith Qround Reals Lia Lra Bool Arith List.
Import ListNotations.

Local Open Scope string_scope.
Local Open Scope nat_scope.

(** ** Exceptions and results *)

Inductive exn : Type :=
| ValueError (msg : string)
| AttributeError
| IndexError
| KeyError
| TypeError
| UnitConversionError
| AssertionError
| LinAlgError (msg : string).

Inductive result (A : Type) : Type :=
| Ok (a : A)
| Raise (e : exn).
Arguments Ok {A} a.
Arguments Raise {A} e.

(** ** A state, log and exception monad

    A method of an object of type [S] maps the object before the call to
    the outcome of the call, the object after it and the warnings logged.
    The object survives an exception: whatever was assigned before the
    [raise] stays assigned. *)

Record out (S A : Type) : Type := mkOut {
  res : result A;
  st : S;
  logs : list string
}.
Arguments mkOut {S A} res st logs.
Arguments res {S A} o.
Arguments st {S A} o.
Arguments logs {S A} o.

Definition M (S A : Type) : Type := S -> out S A.

Definition ret {S A} (a : A) : M S A := fun s => mkOut (Ok a) s [].

Definition raise {S A} (e : exn) : M S A := fun s => mkOut (Raise e) s [].

Definition bind {S A B} (c : M S A) (k : A -> M S B) : M S B :=
  fun s =>
    let o := c s in
    match res o with
    | Ok a => let o' := k a (st o) in mkOut (res o') (st o') (logs o ++ logs o')
    | Raise e => mkOut (Raise e) (st o) (logs o)
    end.

Definition get {S} : M S S := fun s => mkOut (Ok s) s [].

Definition log_warning {S} (msg : string) : M S unit :=
  fun s => mkOut (Ok tt) s [msg].

Definition lift {S A} (r : result A) : M S A := fun s => mkOut r s [].

Declare Scope monad_scope.
Delimit Scope monad_scope with monad.
Notation "x <- c ;; k" := (bind c (fun x => k))
  (at level 61, c at next level, right associativity) : monad_scope.
Notation "c ;;; k" := (bind c (fun _ => k))
  (at level 61, right associativity) : monad_scope.

(** The pure exception monad, for the helpers that touch no object. *)

Definition rbind {A B} (r : result A) (k : A -> result B) : result B :=
  match r with Ok a => k a | Raise e => Raise e end.

Notation "x <-- c ;; k" := (rbind c (fun x => k))
  (at level 61, c at next level, right associativity) : monad_scope.

Local Open Scope monad_scope.

(** ** Scalar arithmetic *)

(** Physical units that the code names. *)
Inductive unit_t : Type :=
| u_s | u_us | u_Hz | u_dimensionless | u_dm
| u_div (a b : unit_t).

(** What [Unit(s)] makes of a string: the scale of a dimensionless unit
    (the number 100 for "100"), a unit with a dimension, or no unit at
    all. *)
Inductive parsed_unit (num : Type) : Type :=
| UnitScale (k : num)
| UnitWithDimension
| NotAUnit.
Arguments UnitScale {num} k.
Arguments UnitWithDimension {num}.
Arguments NotAUnit {num}.

(** [a == b] on units *)
Fixpoint unit_eqb (a b : unit_t) : bool :=
  match a, b with
  | u_s, u_s | u_us, u_us | u_Hz, u_Hz | u_dimensionless, u_dimensionless
  | u_dm, u_dm => true
  | u_div a1 a2, u_div b1 b2 => unit_eqb a1 b1 && unit_eqb a2 b2
  | _, _ => false
  end.

Class Numeric (num : Type) : Type := {
  nzero : num;
  nunit : num;
  nadd : num -> num -> num;
  nsub : num -> num -> num;
  nmul : num -> num -> num;
  ndiv : num -> num -> num;
  (** [x == 0.0] *)
  is_zero : num -> bool;
  (** an array length as a scalar, the divisor of [mean] *)
  of_len : nat -> num;
  (** [q.to(u.s)] for [q] in microseconds *)
  us_to_s : num -> num;
  (** [s ** 2] expressed in [us ** 2], the conversion astropy applies when a
      quantity in [s ** 2] is added to one in [us ** 2] *)
  s2_to_us2 : num -> num;
  (** [q.to_value(unit)] for [q] in unit [from]: the scale factor, or no
      factor when the units are not convertible *)
  unit_factor : unit_t -> unit_t -> option num;
  (** [Unit(s)], the unit that astropy reads from a string *)
  Unit_of : string -> parsed_unit num
}.

Class Sqrt (num : Type) : Type := nsqrt : num -> num.

(** Chi-squared values: a scalar or [np.inf]. *)
Inductive ext (num : Type) : Type :=
| Finite (x : num)
| Inf.
Arguments Finite {num} x.
Arguments Inf {num}.

Definition ext_add {num} `{Numeric num} (a b : ext num) : ext num :=
  match a, b with
  | Finite x, Finite y => Finite (nadd x y)
  | _, _ => Inf
  end.

(** ** numpy on one-dimensional arrays *)

Section Arrays.
Context {num : Type} `{Numeric num}.

Definition zip_with {A B C} (f : A -> B -> C) (xs : list A) (ys : list B)
  : list C :=
  map (fun p => f (fst p) (snd p)) (combine xs ys).

(** Elementwise binary operation with numpy's broadcasting rule for
    one-dimensional operands. *)
Definition broadcast2 {A B C} (f : A -> B -> C) (xs : list A) (ys : list B)
  : result (list C) :=
  if length xs =? length ys then Ok (zip_with f xs ys)
  else match xs, ys with
       | [x], _ => Ok (map (f x) ys)
       | _, [y] => Ok (map (fun x => f x y) xs)
       | _, _ => Raise (ValueError "operands could not be broadcast together")
       end.

(** [a.sum()] *)
Definition np_sum (xs : list num) : num := fold_left nadd xs nzero.

(** [a.mean()] *)
Definition np_mean (xs : list num) : num :=
  ndiv (np_sum xs) (of_len (length xs)).

(** [(a == 0).any()] *)
Definition any_zero (xs : list num) : bool := existsb is_zero xs.

(** [np.zeros(n)] *)
Definition np_zeros (n : nat) : list num := repeat nzero n.

(** [x ** 2] *)
Definition sq (x : num) : num := nmul x x.

(** [a[0]] *)
Definition index0 {A} (xs : list A) : result A :=
  match xs with
  | [] => Raise IndexError
  | x :: _ => Ok x
  end.

(** [q.to_value(unit)] *)
Definition to_value (from to : unit_t) (xs : list num) : result (list num) :=
  match unit_factor from to with
  | Some k => Ok (map (fun x => nmul x k) xs)
  | None => Raise UnitConversionError
  end.

(** The conversion of the second operand of [a - b] to the unit of the
    first: nothing is done between equal units or at a scale of one, the
    values are scaled otherwise, and units of different dimensions raise. *)
Definition to_unit (from to : unit_t) (xs : list num) : result (list num) :=
  if unit_eqb from to then Ok xs
  else
    match unit_factor from to with
    | Some k =>
        if is_zero (nsub k nunit) then Ok xs
        else Ok (map (fun x => nmul k x) xs)
    | None => Raise UnitConversionError
    end.

(** Modelled from the spec: the weighted mean of the weighted-statistics
    utility ([pint.utils.weighted_mean] is not among the sources); only the
    mean is used by the residual code, [sum(w * x) / sum(w)]. *)
Definition weighted_mean (arr weights : list num) : result num :=
  wx <-- broadcast2 nmul weights arr ;;
  Ok (ndiv (np_sum wx) (np_sum weights)).

End Arrays.

(** ** Phase

  Modelled from the spec: [pint.phase.Phase] is not among the sources.  A
  phase is an integer cycle count plus a fractional cycle; the residual
  code only uses the constructors, the two projections, and addition and
  subtraction, which are taken as an interface. *)

Class PhaseOps (num phase_t : Type) : Type := {
  (** [Phase(arg1, arg2)] *)
  Phase2 : num -> num -> phase_t;
  (** [Phase(arg1)] *)
  Phase1 : num -> phase_t;
  phase_int : phase_t -> num;
  phase_frac : phase_t -> num;
  phase_add : phase_t -> phase_t -> phase_t;
  phase_sub : phase_t -> phase_t -> phase_t
}.

(** ** The collaborators: observation set and timing model

    Modelled from the spec: [pint.toa.TOAs] and the timing model are not
    among the sources.  An observation set is an ordered table of
    observations, each with a timestamp, a frequency, an uncertainty (in
    microseconds), optional wideband annotations, and the two optional
    columns [delta_pulse_number] and [pulse_number].  A timing model lists
    parameter names, resolves attributes, and evaluates phases, dispersion
    measures and noise terms per observation. *)

Section DataModel.
Context {num phase_t : Type}.

Record TOA : Type := mkTOA {
  mjd : num;
  freq : num;
  error : num;
  delta_pulse_number : num;
  pulse_number : num;
  pp_dm : option num;
  pp_dme : option num
}.

Record TOAs : Type := mkTOAs {
  table : list TOA;
  (** whether the table has the column; the row field is read only then *)
  has_delta_pulse_number : bool;
  has_pulse_number : bool
}.

Definition ntoas (t : TOAs) : nat := length (table t).
Definition get_errors (t : TOAs) : list num := map error (table t).
Definition get_mjds (t : TOAs) : list num := map mjd (table t).
Definition get_freqs (t : TOAs) : list num := map freq (table t).

Definition get_pulse_numbers (t : TOAs) : option (list num) :=
  if has_pulse_number t then Some (map pulse_number (table t)) else None.

(** [toas.get_flag_value(flag)]: the value per observation ([None] where
    the flag is absent) and the indices of the observations that have it. *)
Fixpoint valid_indices (i : nat) (vals : list (option num)) : list nat :=
  match vals with
  | [] => []
  | Some _ :: rest => i :: valid_indices (S i) rest
  | None :: rest => valid_indices (S i) rest
  end.

Definition get_flag_value (flag : TOA -> option num) (t : TOAs)
  : list (option num) * list nat :=
  let vals := map flag (table t) in (vals, valid_indices 0 vals).

(** [np.array(vals)[idx]] for indices produced by [get_flag_value] *)
Definition take_valid (vals : list (option num)) (idx : list nat) : list num :=
  flat_map (fun i => match nth_error vals i with
                     | Some (Some v) => [v]
                     | _ => []
                     end) idx.

Inductive pvalue : Type :=
| PNum (x : num)
| PStr (s : string)
| PNone.

Record Param : Type := mkParam {
  value : pvalue;
  frozen : bool;
  units : string
}.

(** A two-dimensional array: [shape1] columns, stored by rows. *)
Record Matrix : Type := mkMatrix {
  shape1 : nat;
  rows : list (list num)
}.

Record EcorrNoise : Type := mkEcorrNoise {
  ecorr_basis_weight_pair : TOAs -> Matrix * list num
}.

Record TimingModel : Type := mkTimingModel {
  params : list string;
  (** [getattr(model, name)] for a parameter name *)
  attr : string -> option Param;
  (** [model.phase(toas, abs_phase)] *)
  phase : TOAs -> bool -> list phase_t;
  has_correlated_errors : bool;
  dm_value : TOAs -> list num;
  d_phase_d_toa : TOAs -> list num;
  (** [model.get_components_by_category()] at key ["ecorr_noise"] *)
  ecorr_noise : option (list EcorrNoise);
  scaled_toa_uncertainty : TOAs -> list num
}.

(** Attribute access on an object that may be [None]. *)
Definition require {A} (o : option A) : result A :=
  match o with
  | Some a => Ok a
  | None => Raise AttributeError
  end.

Definition getattr (m : TimingModel) (name : string) : result Param :=
  require (attr m name).

(** [name in model.params] *)
Definition in_params (name : string) (m : TimingModel) : bool :=
  existsb (String.eqb name) (params m).

End DataModel.

Arguments TOA : clear implicits.
Arguments TOAs : clear implicits.
Arguments pvalue : clear implicits.
Arguments Param : clear implicits.
Arguments Matrix : clear implicits.
Arguments EcorrNoise : clear implicits.
Arguments TimingModel : clear implicits.

(** ** class Residuals *)

Section ResidualsClass.
Context {num phase_t : Type} `{Numeric num} `{PhaseOps num phase_t}.

Record Residuals : Type := mkResiduals {
  toas : option (TOAs num);
  model : option (TimingModel num phase_t);
  residual_type : string;
  subtract_mean : bool;
  use_weighted_mean : bool;
  track_mode : string;
  phase_resids : option (list num);
  time_resids : option (list num);
  dof : option Z;
  _chi2 : option (ext num);
  noise_resids : list (string * list num);
  scaled_by_F0 : bool;
  unit_ : unit_t
}.

Definition set_toas (v : option (TOAs num)) (r : Residuals) : Residuals :=
  mkResiduals v (model r) (residual_type r) (subtract_mean r)
    (use_weighted_mean r) (track_mode r) (phase_resids r) (time_resids r)
    (dof r) (_chi2 r) (noise_resids r) (scaled_by_F0 r) (unit_ r).

Definition set_phase_resids (v : option (list num)) (r : Residuals) : Residuals :=
  mkResiduals (toas r) (model r) (residual_type r) (subtract_mean r)
    (use_weighted_mean r) (track_mode r) v (time_resids r)
    (dof r) (_chi2 r) (noise_resids r) (scaled_by_F0 r) (unit_ r).

Definition set_time_resids (v : option (list num)) (r : Residuals) : Residuals :=
  mkResiduals (toas r) (model r) (residual_type r) (subtract_mean r)
    (use_weighted_mean r) (track_mode r) (phase_resids r) v
    (dof r) (_chi2 r) (noise_resids r) (scaled_by_F0 r) (unit_ r).

Definition set_dof (v : option Z) (r : Residuals) : Residuals :=
  mkResiduals (toas r) (model r) (residual_type r) (subtract_mean r)
    (use_weighted_mean r) (track_mode r) (phase_resids r) (time_resids r)
    v (_chi2 r) (noise_resids r) (scaled_by_F0 r) (unit_ r).

Definition set__chi2 (v : option (ext num)) (r : Residuals) : Residuals :=
  mkResiduals (toas r) (model r) (residual_type r) (subtract_mean r)
    (use_weighted_mean r) (track_mode r) (phase_resids r) (time_resids r)
    (dof r) v (noise_resids r) (scaled_by_F0 r) (unit_ r).

(** [self.attr = v] *)
Definition assign {S A} (setter : A -> S -> S) (v : A) : M S unit :=
  fun s => mkOut (Ok tt) (setter v s) [].

(** The generalized-least-squares evaluator, an external collaborator
    ([pint.fitter.GLSFitter] is not among the sources):
    [GLSFitter(toas, model, residuals=self).fit_toas(maxiter, full_cov)]
    returns a chi-squared or raises, a [LinAlgError] among others. *)
Class GLSFitter : Type :=
  fit_toas : option (TOAs num) -> TimingModel num phase_t -> Residuals ->
             Z -> bool -> result (ext num).

Context {fitter : GLSFitter}.

(** Materialise the [delta_pulse_number] column as zeros. *)
Definition zero_delta_pulse_number (t : TOAs num) : TOAs num :=
  mkTOAs
    (zip_with (fun row z =>
                 mkTOA (mjd row) (freq row) (error row) z (pulse_number row)
                       (pp_dm row) (pp_dme row))
              (table t) (np_zeros (length (get_mjds t))))
    true (has_pulse_number t).

(** The phase as one number, [p.int + p.frac]. *)
Definition phase_full (p : phase_t) : num := nadd (phase_int p) (phase_frac p).

(** The [try] that reads the [delta_pulse_number] column and its [except]
    that creates the column first. *)
Definition ensure_delta_pulse_number (t : TOAs num) : TOAs num :=
  if has_delta_pulse_number t then t else zero_delta_pulse_number t.

(** [model.phase(toas) + delta_pulse_numbers] *)
Definition model_phase (m : TimingModel num phase_t) (t : TOAs num)
  (abs_phase : bool) : result (list phase_t) :=
  let delta_pulse_numbers := map Phase1 (map delta_pulse_number (table t)) in
  broadcast2 phase_add (phase m t abs_phase) delta_pulse_numbers.

(** The first block of [calc_phase_resids]: the residual phase under the
    tracking mode, as one number per observation. *)
Definition tracked_phase (self : Residuals) (t : TOAs num)
  : result (list num) :=
  if String.eqb (track_mode self) "use_pulse_numbers" then
    match get_pulse_numbers t with
    | None =>
        Raise (ValueError
                 "Pulse numbers missing from TOAs but track_mode requires them")
    | Some pulse_num =>
        m <-- require (model self) ;;
        modelphase <-- model_phase m t true ;;
        residualphase <--
          broadcast2 phase_sub modelphase
            (map (fun n => Phase2 n nzero) pulse_num) ;;
        Ok (map phase_full residualphase)
    end
  else
    m <-- require (model self) ;;
    modelphase <-- model_phase m t false ;;
    modelphase <--
      (if subtract_mean self then
         first <-- index0 modelphase ;;
         let ref := Phase2 (phase_int first) (phase_frac first) in
         Ok (map (fun p => phase_sub p ref) modelphase)
       else Ok modelphase) ;;
    let residualphase :=
      map (fun p => Phase2 nzero (phase_frac p)) modelphase in
    Ok (map phase_full residualphase).

(** The second block: the mean, plain or weighted by the errors, is
    subtracted when [subtract_mean] is set. *)
Definition remove_mean (self : Residuals) (t : TOAs num) (full : list num)
  : result (list num) :=
  if negb (subtract_mean self) then Ok full
  else
    mean <--
      (if negb (use_weighted_mean self) then Ok (np_mean full)
       else
         if any_zero (get_errors t) then
           Raise (ValueError
                    "Some TOA errors are zero - cannot calculate residuals")
         else
           let w := map (fun e => ndiv nunit (sq e)) (get_errors t) in
           weighted_mean full w) ;;
    Ok (map (fun x => nsub x mean) full).

Definition calc_phase_resids : M Residuals (list num) :=
  self <- get ;;
  t <- lift (require (toas self)) ;;
  let t := ensure_delta_pulse_number t in
  assign set_toas (Some t) ;;;
  full <- lift (tracked_phase self t) ;;
  lift (remove_mean self t full).

(** What [get_PSR_freq] returns: a scalar in Hz, the array
    [model.d_phase_d_toa(toas)], or the unit [Unit(s) * u.Hz] for a string
    that names a unit with a dimension. *)
Inductive frequency : Type :=
| Hz (f : num)
| HzArray (fs : list num)
| HzTimes (s : string).

Definition F0names : list string := ["F0"; "nu"].

(** The loop over [F0names]: the last value found and the number found. *)
Fixpoint scan_F0names (m : TimingModel num phase_t) (names : list string)
  (F0 : option (pvalue num)) (nF0 : nat) : result (option (pvalue num) * nat) :=
  match names with
  | [] => Ok (F0, nF0)
  | n :: rest =>
      if in_params n m then
        p <-- getattr m n ;;
        scan_F0names m rest (Some (value p)) (S nF0)
      else scan_F0names m rest F0 nF0
  end.

(** [F0 * u.Hz]: a number becomes a quantity in Hz; a string is read as a
    unit and multiplied, which for the name of a number [k] gives the unit
    [k Hz], dividing like the quantity, and raises when the string is no
    unit; [None] cannot be multiplied. *)
Definition times_Hz (v : pvalue num) : result frequency :=
  match v with
  | PNum x => Ok (Hz x)
  | PStr s =>
      match Unit_of s with
      | UnitScale k => Ok (Hz k)
      | UnitWithDimension => Ok (HzTimes s)
      | NotAUnit => Raise (ValueError ("'" ++ s ++ "' did not parse as unit"))
      end
  | PNone => Raise TypeError
  end.

Definition get_PSR_freq (self : Residuals) (modelF0 : bool) : result frequency :=
  m <-- require (model self) ;;
  if modelF0 then
    F0 <-- getattr m "F0" ;;
    (* the ValueError on the units is built but not raised *)
    let _ := if String.eqb (units F0) "Hz" then None
             else Some (ValueError "F0 units must be Hz") in
    found <-- scan_F0names m F0names None 0 ;;
    let (F0, nF0) := found in
    if nF0 =? 0 then
      Raise (ValueError
        "no PSR frequency parameter found; valid names are ['F0', 'nu']")
    else if 1 <? nF0 then
      Raise (ValueError
        "more than one PSR frequency parameter found; should be only one from ['F0', 'nu']")
    else
      match F0 with
      | Some v => times_Hz v
      | None => Raise AttributeError
      end
  else
    t <-- require (toas self) ;;
    Ok (HzArray (d_phase_d_toa m t)).

(** [(phase_resids / frequency).to(u.s)]: the quotient by a frequency is
    in seconds already, the quotient by any other unit is no time. *)
Definition div_frequency (xs : list num) (f : frequency) : result (list num) :=
  match f with
  | Hz f0 => Ok (map (fun x => ndiv x f0) xs)
  | HzArray fs => broadcast2 ndiv xs fs
  | HzTimes _ => Raise UnitConversionError
  end.

Definition calc_time_resids : M Residuals (list num) :=
  self <- get ;;
  pr <- (match phase_resids self with
         | None =>
             v <- calc_phase_resids ;;
             assign set_phase_resids (Some v) ;;;
             ret v
         | Some v => ret v
         end) ;;
  self <- get ;;
  f <- lift (get_PSR_freq self true) ;;
  lift (div_frequency pr f).

Definition degenerate_warning (e : string) : string :=
  "Degenerate conditions encountered when computing chi-squared: " ++ e.

(** In the independent branch the [try] and its [except] evaluate the same
    sum (with and without [.value]); an exception of the arithmetic is
    raised again by the handler, so both outcomes are those of one
    evaluation. *)
Definition calc_chi2 (full_cov : bool) : M Residuals (ext num) :=
  self <- get ;;
  m <- lift (require (model self)) ;;
  if has_correlated_errors m then
    (* Use GLS but don't actually fit *)
    match fit_toas (toas self) m self 0%Z full_cov with
    | Raise (LinAlgError e) =>
        log_warning (degenerate_warning e) ;;;
        ret Inf
    | r => lift r
    end
  else
    t <- lift (require (toas self)) ;;
    if any_zero (get_errors t) then ret Inf
    else
      match time_resids self with
      | None => raise TypeError
      | Some tr =>
          q <- lift (broadcast2 ndiv tr (map us_to_s (get_errors t))) ;;
          ret (Finite (np_sum (map sq q)))
      end.

(** The property [chi2]: compute as needed and cache. *)
Definition chi2 : M Residuals (ext num) :=
  self <- get ;;
  match _chi2 self with
  | None =>
      c <- calc_chi2 false ;;
      assign set__chi2 (Some c) ;;;
      ret c
  | Some c => ret c
  end.

(** The loop of [get_dof]: one is subtracted per parameter that is not
    frozen. *)
Fixpoint subtract_free (m : TimingModel num phase_t) (ps : list string)
  (dof : Z) : result Z :=
  match ps with
  | [] => Ok dof
  | p :: rest =>
      prm <-- getattr m p ;;
      subtract_free m rest (dof - (if negb (frozen prm) then 1 else 0))%Z
  end.

Definition get_dof (self : Residuals) : result Z :=
  t <-- require (toas self) ;;
  m <-- require (model self) ;;
  dof <-- subtract_free m (params m) (Z.of_nat (ntoas t)) ;;
  (* the implicit global offset parameter *)
  Ok (dof - 1)%Z.

Definition is_None {A} (o : option A) : bool :=
  match o with None => true | Some _ => false end.

Definition update : M Residuals unit :=
  self <- get ;;
  (if is_None (toas self) || is_None (model self) then
     assign set_phase_resids None ;;;
     assign set_time_resids None
   else ret tt) ;;;
  (if is_None (toas self) then
     raise (ValueError "No TOAs provided for residuals update")
   else ret tt) ;;;
  (if is_None (model self) then
     raise (ValueError "No model provided for residuals update")
   else ret tt) ;;;
  pr <- calc_phase_resids ;;
  assign set_phase_resids (Some pr) ;;;
  tr <- calc_time_resids ;;
  assign set_time_resids (Some tr) ;;;
  assign set__chi2 None ;;;
  self <- get ;;
  d <- lift (get_dof self) ;;
  assign set_dof (Some d).

(** The property [resids]. *)
Definition resids : M Residuals (option (list num)) :=
  self <- get ;;
  if scaled_by_F0 self then ret (time_resids self)
  else
    match phase_resids self with
    | None =>
        v <- calc_phase_resids ;;
        assign set_phase_resids (Some v) ;;;
        ret (Some v)
    | Some v => ret (Some v)
    end.

(** The property [resids_value]: the residuals as pure numbers. *)
Definition resids_value : M Residuals (list num) :=
  self <- get ;;
  r <- resids ;;
  v <- lift (require r) ;;
  if negb (scaled_by_F0 self) then
    lift (to_value u_dimensionless (u_div (unit_ self) u_s) v)
  else lift (to_value u_s (unit_ self) v).

(** The property [data_error]. *)
Definition data_error (self : Residuals) : result (list num) :=
  t <-- require (toas self) ;;
  Ok (get_errors t).

(** [Residuals.__init__]: the attributes in the order they are assigned;
    the three methods run on the object as assigned so far. *)
Definition Residuals_init (toas : option (TOAs num))
  (model : option (TimingModel num phase_t)) (residual_type : string)
  (unit_ : unit_t) (subtract_mean use_weighted_mean : bool)
  (track_mode : string) (scaled_by_F0 : bool) : result Residuals :=
  m <-- require model ;;
  TRACK <-- getattr m "TRACK" ;;
  let track_mode :=
    match value TRACK with
    | PStr s => if String.eqb s "-2" then "use_pulse_numbers" else track_mode
    | _ => track_mode
    end in
  let self := mkResiduals toas model residual_type subtract_mean
                use_weighted_mean track_mode None None None None []
                scaled_by_F0 unit_ in
  match toas with
  | Some _ =>
      let o := (pr <- calc_phase_resids ;;
                assign set_phase_resids (Some pr) ;;;
                tr <- calc_time_resids ;;
                assign set_time_resids (Some tr) ;;;
                self <- get ;;
                d <- lift (get_dof self) ;;
                assign set_dof (Some d)) self in
      match res o with
      | Ok _ => Ok (st o)
      | Raise e => Raise e
      end
  | None => Ok self
  end.

(** *** Epoch averaging *)

Record EcorrAverage : Type := mkEcorrAverage {
  avg_mjds : list num;
  avg_freqs : list num;
  avg_time_resids : list num;
  avg_noise_resids : list (string * list num);
  avg_errors : list num;
  avg_indices : list (list nat)
}.

(** [np.dot(U.T, v)] *)
Definition dot_T (U : Matrix num) (v : list num) : result (list num) :=
  if length (rows U) =? length v then
    Ok (map (fun j =>
               np_sum (zip_with (fun row x => nmul (nth j row nzero) x)
                         (rows U) v))
          (seq 0 (shape1 U)))
  else Raise (ValueError "shapes not aligned").

(** [list(np.where(U[:, i])[0])] *)
Fixpoint where_column (i : nat) (k : nat) (rs : list (list num)) : list nat :=
  match rs with
  | [] => []
  | row :: rest =>
      if is_zero (nth i row nzero) then where_column i (S k) rest
      else k :: where_column i (S k) rest
  end.

(** The loop over [self.noise_resids.keys()]. *)
Fixpoint average_each (wtsum : list num -> result (list num))
  (items : list (string * list num)) : result (list (string * list num)) :=
  match items with
  | [] => Ok []
  | (k, x) :: rest =>
      a <-- wtsum x ;;
      others <-- average_each wtsum rest ;;
      Ok ((k, a) :: others)
  end.

(** The local function [wtsum] of [ecorr_average], with the binning
    matrix, the weights and the normalization it closes over. *)
Definition wtsum (U : Matrix num) (wt a_norm x : list num)
  : result (list num) :=
  wx <-- broadcast2 nmul wt x ;;
  s <-- dot_T U wx ;;
  broadcast2 ndiv s a_norm.

Context {sqrt_op : Sqrt num}.

Definition ecorr_average (self : Residuals) (use_noise_model : bool)
  : result EcorrAverage :=
  m <-- require (model self) ;;
  ecorr <-- (match ecorr_noise m with
             | None => Raise (ValueError "ECORR not present in noise model")
             | Some comps => index0 comps
             end) ;;
  t <-- require (toas self) ;;
  let (U, ecorr_err2) := ecorr_basis_weight_pair ecorr t in
  let err := if use_noise_model then scaled_toa_uncertainty m t
             else get_errors t in
  let ecorr_err2 := if use_noise_model then ecorr_err2
                    else map (fun x => nmul x nzero) ecorr_err2 in
  (* Weight for sums, and normalization *)
  let wt := map (fun e => ndiv nunit (nmul e e)) err in
  a_norm <-- dot_T U wt ;;
  let wtsum := wtsum U wt a_norm in
  mjds <-- wtsum (get_mjds t) ;;
  freqs <-- wtsum (get_freqs t) ;;
  tr <-- (match time_resids self with
          | None => Raise TypeError
          | Some x => wtsum x
          end) ;;
  nr <-- average_each wtsum (noise_resids self) ;;
  var <-- broadcast2 nadd (map (fun a => ndiv nunit a) a_norm)
            (map s2_to_us2 ecorr_err2) ;;
  Ok (mkEcorrAverage mjds freqs tr nr (map nsqrt var)
        (map (fun i => where_column i 0 (rows U)) (seq 0 (shape1 U)))).

End ResidualsClass.

Arguments Residuals num phase_t : clear implicits.
Arguments GLSFitter num phase_t : clear implicits.
Arguments frequency : clear implicits.
Arguments EcorrAverage : clear implicits.

(** ** class WidebandDMResiduals *)

Module WidebandDMResiduals.
Section WidebandClass.
Context {num phase_t : Type} `{Numeric num}.

(** [model_func] is an attribute only once [update_model] has run. *)
Record t : Type := mk {
  toas : option (TOAs num);
  model : option (TimingModel num phase_t);
  residual_type : string;
  unit_ : unit_t;
  subtract_mean : bool;
  use_weighted_mean : bool;
  base_unit : unit_t;
  get_model_value : TOAs num -> list num;
  dm_data : list num;
  dm_error : list num;
  scaled_by_F0 : bool;
  _chi2 : option (ext num);
  model_func : option (TOAs num -> list num)
}.

Definition set_model (v : option (TimingModel num phase_t)) (w : t) : t :=
  mk (toas w) v (residual_type w) (unit_ w) (subtract_mean w)
    (use_weighted_mean w) (base_unit w) (get_model_value w) (dm_data w)
    (dm_error w) (scaled_by_F0 w) (_chi2 w) (model_func w).

Definition set_model_func (v : option (TOAs num -> list num)) (w : t) : t :=
  mk (toas w) (model w) (residual_type w) (unit_ w) (subtract_mean w)
    (use_weighted_mean w) (base_unit w) (get_model_value w) (dm_data w)
    (dm_error w) (scaled_by_F0 w) (_chi2 w) v.

Definition set__chi2 (v : option (ext num)) (w : t) : t :=
  mk (toas w) (model w) (residual_type w) (unit_ w) (subtract_mean w)
    (use_weighted_mean w) (base_unit w) (get_model_value w) (dm_data w)
    (dm_error w) (scaled_by_F0 w) v (model_func w).

(** [get_dm_data]: the measured values and their errors, read from the
    flags [pp_dm] and [pp_dme]; only [self.toas] is read. *)
Definition get_dm_data (toas : option (TOAs num))
  : result (list num * list num) :=
  t <-- require toas ;;
  let (dm_data, valid_data) := get_flag_value pp_dm t in
  let (dm_error, valid_error) := get_flag_value pp_dme t in
  match valid_data, valid_error with
  | [], _ =>
      Raise (ValueError "Input TOA object does not have wideband DM values")
  | _, [] =>
      Raise (ValueError "Input TOA object does not have wideband DM errors")
  | _, _ =>
      let valid_dm := take_valid dm_data valid_data in
      let valid_error := take_valid dm_error valid_error in
      if negb (length valid_dm =? length valid_error) then
        Raise (ValueError "Input TOA object' DM data and DM errors do not match.")
      else Ok (valid_dm, valid_error)
  end.

(** [WidebandDMResiduals.__init__] *)
Definition init (toas : option (TOAs num))
  (model : option (TimingModel num phase_t)) (residual_type : string)
  (unit_ : unit_t) (subtract_mean use_weighted_mean scaled_by_F0 : bool)
  : result t :=
  m <-- require model ;;
  let get_model_value := dm_value m in
  dm <-- get_dm_data toas ;;
  Ok (mk toas model residual_type unit_ subtract_mean use_weighted_mean u_dm
        get_model_value (fst dm) (snd dm) scaled_by_F0 None None).

(** [dm_data] and [dm_error] are held in [self.unit], the unit that
    [get_dm_data] put on them; the model value is in pc / cm^3 and the
    subtraction converts it to the unit of the data. *)
Definition calc_resids (self : t) : result (list num) :=
  tt <-- require (toas self) ;;
  let model_value := get_model_value self tt in
  model_value <-- to_unit u_dm (unit_ self) model_value ;;
  resids <-- broadcast2 nsub (dm_data self) model_value ;;
  if subtract_mean self then
    if negb (use_weighted_mean self) then
      let mean := np_mean resids in
      Ok (map (fun x => nsub x mean) resids)
    else
      if any_zero (dm_error self) then
        Raise (ValueError
          "Some DM errors are zero - cannot calculate the weighted residuals.")
      else
        let w := map (fun e => ndiv nunit (sq e)) (dm_error self) in
        rw <-- broadcast2 nmul resids w ;;
        let wm := ndiv (np_sum rw) (np_sum w) in
        Ok (map (fun x => nsub x wm) resids)
  else Ok resids.

(** The property [resids]. *)
Definition resids (self : t) : result (list num) := calc_resids self.

(** The property [resids_value]. *)
Definition resids_value (self : t) : result (list num) :=
  r <-- resids self ;;
  to_value (unit_ self) (unit_ self) r.

(** The property [data_error]. *)
Definition data_error (self : t) : list num := dm_error self.

Definition calc_chi2 (self : t) : result (ext num) :=
  if any_zero (data_error self) then Ok Inf
  else
    r <-- resids self ;;
    q <-- broadcast2 ndiv r (data_error self) ;;
    Ok (Finite (np_sum (map sq q))).

(** The property [chi2]: compute as needed and cache. *)
Definition chi2 : M t (ext num) :=
  self <- get ;;
  match _chi2 self with
  | None =>
      c <- lift (calc_chi2 self) ;;
      (fun s => mkOut (Ok tt) (set__chi2 (Some c) s) []) ;;;
      ret c
  | Some c => ret c
  end.

Definition update_model (new_model : option (TimingModel num phase_t))
  : M t unit :=
  (fun s => mkOut (Ok tt) (set_model new_model s) []) ;;;
  self <- get ;;
  m <- lift (require (model self)) ;;
  (fun s => mkOut (Ok tt) (set_model_func (Some (dm_value m)) s) []).

End WidebandClass.
Arguments t num phase_t : clear implicits.
End WidebandDMResiduals.

(** ** class CombinedResiduals *)

Module CombinedResiduals.
Section CombinedClass.
Context {num phase_t : Type} `{Numeric num} `{PhaseOps num phase_t}.
Context {fitter : GLSFitter num phase_t}.

(** A residual object of either class; the methods dispatch on the class. *)
Inductive residual_obj : Type :=
| Toa (r : Residuals num phase_t)
| Dm (w : WidebandDMResiduals.t num phase_t).

(** A method of one object, run on that object of the list. *)
Definition obj_resids_value (o : residual_obj) : out residual_obj (list num) :=
  match o with
  | Toa r => let x := resids_value r in mkOut (res x) (Toa (st x)) (logs x)
  | Dm w => mkOut (WidebandDMResiduals.resids_value w) (Dm w) []
  end.

Definition obj_chi2 (o : residual_obj) : out residual_obj (ext num) :=
  match o with
  | Toa r => let x := chi2 r in mkOut (res x) (Toa (st x)) (logs x)
  | Dm w => let x := WidebandDMResiduals.chi2 w in
            mkOut (res x) (Dm (st x)) (logs x)
  end.

(** [res._chi2], the cache of either class *)
Definition obj_cached_chi2 (o : residual_obj) : option (ext num) :=
  match o with
  | Toa r => _chi2 r
  | Dm w => WidebandDMResiduals._chi2 w
  end.

Definition obj_unit (o : residual_obj) : unit_t :=
  match o with
  | Toa r => unit_ r
  | Dm w => WidebandDMResiduals.unit_ w
  end.

Record t : Type := mk { residual_objs : list residual_obj }.

(** [for res in objs: acc = step acc (method res)], the objects updated in
    place; an exception leaves the objects already visited updated. *)
Fixpoint for_each {A B} (method : residual_obj -> out residual_obj A)
  (step : B -> A -> B) (objs : list residual_obj) (acc : B)
  : out (list residual_obj) B :=
  match objs with
  | [] => mkOut (Ok acc) [] []
  | o :: rest =>
      let x := method o in
      match res x with
      | Raise e => mkOut (Raise e) (st x :: rest) (logs x)
      | Ok a =>
          let y := for_each method step rest (step acc a) in
          mkOut (res y) (st x :: st y) (logs x ++ logs y)
      end
  end.

(** [np.hstack(arrays)]: the arrays joined in order; numpy refuses an empty
    sequence of arrays. *)
Definition np_hstack (arrays : list (list num)) : result (list num) :=
  match arrays with
  | [] => Raise (ValueError "need at least one array to concatenate")
  | _ => Ok (concat arrays)
  end.

(** The property [resids]. *)
Definition resids : M t (list num) :=
  fun self =>
    let x := for_each obj_resids_value (fun all_resids v => (all_resids ++ [v])%list)
               (residual_objs self) [] in
    match res x with
    | Raise e => mkOut (Raise e) (mk (st x)) (logs x)
    | Ok all_resids => mkOut (np_hstack all_resids) (mk (st x)) (logs x)
    end.

(** The property [unit]. *)
Definition unit_ (self : t) : list unit_t := map obj_unit (residual_objs self).

(** The property [chi2]. *)
Definition chi2 : M t (ext num) :=
  fun self =>
    let x := for_each obj_chi2 ext_add (residual_objs self) (Finite nzero) in
    mkOut (res x) (mk (st x)) (logs x).

(** [res.residual_type] *)
Definition obj_residual_type (o : residual_obj) : string :=
  match o with
  | Toa r => residual_type r
  | Dm w => WidebandDMResiduals.residual_type w
  end.

(** [res.data_error] *)
Definition obj_data_error (o : residual_obj) : result (list num) :=
  match o with
  | Toa r => data_error r
  | Dm w => Ok (WidebandDMResiduals.data_error w)
  end.

(** [d[k] = v] on an ordered dictionary: a key already present keeps its
    place and takes the new value, a new key goes to the end. *)
Fixpoint od_set {A} (k : string) (v : A) (d : list (string * A))
  : list (string * A) :=
  match d with
  | [] => [(k, v)]
  | (k', v') :: rest =>
      if String.eqb k k' then (k', v) :: rest
      else (k', v') :: od_set k v rest
  end.

(** [collections.OrderedDict(items)] *)
Definition OrderedDict {A} (items : list (string * A)) : list (string * A) :=
  fold_left (fun d kv => od_set (fst kv) (snd kv) d) items [].

(** The loop of [get_data_error]. *)
Fixpoint append_errors (objs : list residual_obj)
  (errors : list (string * list num)) : result (list (string * list num)) :=
  match objs with
  | [] => Ok errors
  | rs :: rest =>
      e <-- obj_data_error rs ;;
      append_errors rest (errors ++ [(obj_residual_type rs, e)])%list
  end.

Definition get_data_error (self : t) : result (list (string * list num)) :=
  errors <-- append_errors (residual_objs self) [] ;;
  Ok (OrderedDict errors).

(** The property [data_error]: the values of the dictionary, without their
    units, joined in its order. *)
Definition data_error (self : t) : result (list num) :=
  dr <-- get_data_error self ;;
  np_hstack (map snd dr).

End CombinedClass.
Arguments t num phase_t : clear implicits.
Arguments residual_obj num phase_t : clear implicits.
End CombinedResiduals.

(** ** Two arithmetics

    Exact rationals, kept in lowest terms so that equal numbers are equal
    terms: the methods run on them.  Real numbers: the idealised arithmetic
    in which the algebraic identities of the residual code are stated.
    Neither has the infinities and the not-a-number of floating point: a
    division by zero yields zero in both, and is meaningful in neither. *)

(** The scale of a unit in base units and its dimension (the exponents of
    time and of dispersion measure). *)
Fixpoint unit_scale (u : unit_t) : Q * (Z * Z) :=
  match u with
  | u_s => (1%Q, (1%Z, 0%Z))
  | u_us => ((1 # 1000000)%Q, (1%Z, 0%Z))
  | u_Hz => (1%Q, ((-1)%Z, 0%Z))
  | u_dimensionless => (1%Q, (0%Z, 0%Z))
  | u_dm => (1%Q, (0%Z, 1%Z))
  | u_div a b =>
      let (sa, da) := unit_scale a in
      let (sb, db) := unit_scale b in
      (Qred (sa / sb), ((fst da - fst db)%Z, (snd da - snd db)%Z))
  end.

Definition Q_unit_factor (from to : unit_t) : option Q :=
  let (sf, df) := unit_scale from in
  let (st, dt) := unit_scale to in
  if (Z.eqb (fst df) (fst dt) && Z.eqb (snd df) (snd dt))%bool
  then Some (Qred (sf / st)) else None.

(** The unit parser of the examples: decimal digits name a number, the
    empty string the number one, the names below a unit with a dimension;
    any other string is taken to be no unit. *)
Definition digit_of (c : ascii) : option N :=
  let n := N_of_ascii c in
  if ((48 <=? n) && (n <=? 57))%N then Some (n - 48)%N else None.

Fixpoint numeral (s : string) (acc : N) : option N :=
  match s with
  | EmptyString => Some acc
  | String c rest =>
      match digit_of c with
      | Some d => numeral rest (acc * 10 + d)%N
      | None => None
      end
  end.

Definition unit_names : list string :=
  ["Hz"; "kHz"; "MHz"; "s"; "ms"; "us"; "d"; "yr"; "m"; "cm"; "pc"].

Definition Q_Unit_of (s : string) : parsed_unit Q :=
  match s with
  | EmptyString => UnitScale 1%Q
  | _ =>
      match numeral s 0 with
      | Some n => UnitScale (inject_Z (Z.of_N n))
      | None =>
          if existsb (String.eqb s) unit_names then UnitWithDimension
          else NotAUnit
      end
  end.

#[export] Instance Q_Numeric : Numeric Q := {
  nzero := 0%Q;
  nunit := 1%Q;
  nadd x y := Qred (x + y);
  nsub x y := Qred (x - y);
  nmul x y := Qred (x * y);
  ndiv x y := Qred (x / y);
  is_zero x := Qeq_bool x 0;
  of_len n := inject_Z (Z.of_nat n);
  us_to_s x := Qred (x * (1 # 1000000));
  s2_to_us2 x := Qred (x * 1000000000000);
  unit_factor := Q_unit_factor;
  Unit_of := Q_Unit_of
}.

(** Modelled from the spec: a phase over the rationals, an integer cycle
    count and a fractional cycle, here the nearest integer and the remainder
    in [[-1/2, 1/2)]; addition and subtraction keep the split. *)
Record QPhase : Type := mkQPhase { qp_int : Q; qp_frac : Q }.

Definition QPhase_make (i f : Q) : QPhase :=
  let total := (i + f)%Q in
  let n := inject_Z (Qfloor (total + (1 # 2))) in
  mkQPhase n (Qred (total - n)).

#[export] Instance Q_PhaseOps : PhaseOps Q QPhase := {
  Phase2 := QPhase_make;
  Phase1 x := QPhase_make x 0;
  phase_int := qp_int;
  phase_frac := qp_frac;
  phase_add p q := QPhase_make (qp_int p + qp_int q) (qp_frac p + qp_frac q);
  phase_sub p q := QPhase_make (qp_int p - qp_int q) (qp_frac p - qp_frac q)
}.

Definition R_is_zero (x : R) : bool :=
  if Req_dec_T x 0%R then true else false.

#[export] Instance R_Numeric : Numeric R := {
  nzero := 0%R;
  nunit := 1%R;
  nadd := Rplus;
  nsub := Rminus;
  nmul := Rmult;
  ndiv := Rdiv;
  is_zero := R_is_zero;
  of_len := INR;
  us_to_s x := (x * / 1000000)%R;
  s2_to_us2 x := (x * 1000000000000)%R;
  unit_factor from to := option_map Q2R (Q_unit_factor from to);
  Unit_of s :=
    match Q_Unit_of s with
    | UnitScale k => UnitScale (Q2R k)
    | UnitWithDimension => UnitWithDimension
    | NotAUnit => NotAUnit
    end
}.

#[export] Instance R_Sqrt : Sqrt R := sqrt.

(** ** The quantities of the specification

    Written from the words of the specification, to be compared with what
    the methods compute. *)

Section SpecQuantities.
Context {num : Type} `{Numeric num}.

(** The sum of [f 0], ..., [f (n - 1)], in the order of the index. *)
Fixpoint sum_upto (n : nat) (f : nat -> num) : num :=
  match n with
  | O => nzero
  | S k => nadd (sum_upto k f) (f k)
  end.

(** The chi-squared of independent errors as the spec writes it: the sum
    over the observations of the squared ratio of the time residual to the
    uncertainty in seconds. *)
Definition chi2_of_ratios (tr errs : list num) : num :=
  sum_upto (length errs)
    (fun i => sq (ndiv (nth i tr nzero) (us_to_s (nth i errs nzero)))).

(** The sum of chi-squared values, infinity as soon as one is. *)
Definition ext_sum (cs : list (ext num)) : ext num :=
  fold_left ext_add cs (Finite nzero).

(** The row of a binning matrix with [n] epochs for an observation that
    belongs to epoch [j] and to no other. *)
Definition one_hot (n j : nat) : list num :=
  map (fun k => if k =? j then nunit else nzero) (seq 0 n).

(** The binning matrix assigns each of [n] observations to exactly one of
    its epochs. *)
Definition assigns_each_to_one_epoch (U : Matrix num) (n : nat) : Prop :=
  length (rows U) = n /\
  Forall (fun row => exists j, j < shape1 U /\ row = one_hot (shape1 U) j)
    (rows U).

(** The total weight of a list of uncertainties, the sum of
    [1 / uncertainty ** 2]. *)
Definition total_weight (errs : list num) : num :=
  np_sum (map (fun e => ndiv nunit (nmul e e)) errs).

End SpecQuantities.

(** The sum of a list of real numbers. *)
Definition Rsum (xs : list R) : R := fold_right Rplus 0%R xs.

(** ** Concrete inputs over the rationals *)

Module Sample.

Definition toa (day : Z) (err : Q) (dm dme : option Q) : TOA Q :=
  mkTOA (inject_Z (55000 + day)) 1400%Q err 0%Q 0%Q dm dme.

(** Observations with the given uncertainties (in microseconds), one per
    day, none with wideband annotations, no optional column. *)
Fixpoint observations (day : Z) (errs : list Q) : list (TOA Q) :=
  match errs with
  | [] => []
  | e :: rest => toa day e None None :: observations (day + 1) rest
  end.

Definition toas_with_errors (errs : list Q) : TOAs Q :=
  mkTOAs (observations 0 errs) false false.

Definition F0 : Param Q := mkParam (PNum 100%Q) false "Hz".
Definition F1 : Param Q := mkParam (PNum (-1 # 10)%Q) false "Hz/s".
Definition DM : Param Q := mkParam (PNum 10%Q) true "pc cm^-3".
Definition TRACK : Param Q := mkParam (PStr "0") true "".

Definition lookup (entries : list (string * Param Q)) (name : string)
  : option (Param Q) :=
  option_map snd (find (fun kv => String.eqb name (fst kv)) entries).

(** The phase of an observation: 5/4 turns per day after a quarter turn. *)
Definition phase_at (row : TOA Q) : QPhase :=
  Phase1 (Qred ((mjd row - 55000) * (5 # 4) + (1 # 4))%Q).

Definition model_with (entries : list (string * Param Q)) (correlated : bool)
  (dm : Q) : TimingModel Q QPhase :=
  mkTimingModel (map fst entries) (lookup entries)
    (fun t _ => map phase_at (table t))
    correlated
    (fun t => map (fun _ => dm) (table t))
    (fun t => map (fun _ => 100%Q) (table t))
    None
    (fun t => get_errors t).

Definition parameters : list (string * Param Q) :=
  [("F0", F0); ("F1", F1); ("DM", DM); ("TRACK", TRACK)].

Definition model : TimingModel Q QPhase := model_with parameters false 10%Q.

Definition correlated_model : TimingModel Q QPhase :=
  model_with parameters true 10%Q.

(** An evaluator that fails on a singular covariance unless asked for the
    full covariance. *)
#[global] Instance fitter : GLSFitter Q QPhase :=
  fun _ _ _ _ full_cov =>
    if full_cov then Ok (Finite 3%Q)
    else Raise (LinAlgError "Singular matrix").

Definition residuals (t : option (TOAs Q)) (m : option (TimingModel Q QPhase))
  (time : option (list Q)) : Residuals Q QPhase :=
  mkResiduals t m "toa" true true "nearest" None time None None [] true u_s.

(** Two observations, the second with an uncertainty of exactly zero. *)
Definition zero_error_toas : TOAs Q := toas_with_errors [1; 0]%Q.

Definition zero_error_residuals : Residuals Q QPhase :=
  residuals (Some zero_error_toas) (Some model) (Some [1 # 400; -1 # 200]%Q).

(** Three observations, to be tracked to the nearest pulse with the plain
    mean subtracted, and with no mean subtracted. *)
Definition three_toas : TOAs Q := toas_with_errors [1; 2; 3]%Q.

Definition mean_subtracted_residuals : Residuals Q QPhase :=
  mkResiduals (Some three_toas) (Some model) "toa" true false "nearest"
    None None None None [] true u_s.

Definition raw_residuals : Residuals Q QPhase :=
  mkResiduals (Some three_toas) (Some model) "toa" false true "nearest"
    None None None None [] true u_s.

(** Three observations with wideband measurements of the dispersion
    measure and their errors. *)
Definition wideband_toas : TOAs Q :=
  mkTOAs [toa 0 1%Q (Some 12%Q) (Some 1%Q);
          toa 1 1%Q (Some 13%Q) (Some 1%Q);
          toa 2 1%Q (Some 14%Q) (Some 2%Q)] false false.

(** A model that predicts a dispersion measure of 20 instead of 10. *)
Definition new_model : TimingModel Q QPhase := model_with parameters false 20%Q.

(** The wideband residuals constructed from those observations and the
    model that predicts 10. *)
Definition wideband_residuals : WidebandDMResiduals.t Q QPhase :=
  WidebandDMResiduals.mk (Some wideband_toas) (Some model) "dm" u_dm false
    true u_dm (dm_value model) [12; 13; 14]%Q [1; 1; 2]%Q false None None.

(** Five observations with their time residuals in seconds, and the same
    combined with the three wideband residuals. *)
Definition five_residuals : Residuals Q QPhase :=
  residuals (Some (toas_with_errors (repeat 1%Q 5))) (Some model)
    (Some [1 # 1000000; 1 # 500000; 0; -1 # 1000000; 1 # 1000000]%Q).

Definition combined : CombinedResiduals.t Q QPhase :=
  CombinedResiduals.mk
    [CombinedResiduals.Toa five_residuals;
     CombinedResiduals.Dm wideband_residuals].

(** A model whose spin frequency goes by the name [nu]. *)
Definition nu_model : TimingModel Q QPhase :=
  model_with [("nu", F0); ("DM", DM); ("TRACK", TRACK)] false 10%Q.

Definition nu_residuals : Residuals Q QPhase :=
  residuals (Some three_toas) (Some nu_model) None.

(** A model with no spin-frequency parameter under either name. *)
Definition no_frequency_model : TimingModel Q QPhase :=
  model_with [("DM", DM); ("TRACK", TRACK)] false 10%Q.

Definition no_frequency_residuals : Residuals Q QPhase :=
  residuals (Some three_toas) (Some no_frequency_model) None.

(** A model whose [F0] holds text that is no unit. *)
Definition text_model : TimingModel Q QPhase :=
  model_with [("F0", mkParam (PStr "?") false "Hz"); ("DM", DM);
              ("TRACK", TRACK)] false 10%Q.

Definition text_residuals : Residuals Q QPhase :=
  residuals (Some three_toas) (Some text_model) None.

(** Two observations scored against a model with correlated errors. *)
Definition correlated_residuals : Residuals Q QPhase :=
  residuals (Some (toas_with_errors [1; 2]%Q)) (Some correlated_model)
    (Some [1 # 1000000; 4 # 1000000]%Q).

(** Ten observations, all with an uncertainty of one microsecond, and the
    model with the two free parameters [F0] and [F1]. *)
Definition ten_observations : TOAs Q :=
  toas_with_errors (repeat 1%Q 10).

Definition ten_residuals : Residuals Q QPhase :=
  residuals (Some ten_observations) (Some model) None.

(** Residuals computed earlier and an object that has lost its model. *)
Definition orphaned_residuals : Residuals Q QPhase :=
  mkResiduals (Some (toas_with_errors [1; 2]%Q)) None "toa" true true
    "nearest" (Some [1 # 4; -1 # 2]%Q) (Some [1 # 400; -1 # 200]%Q)
    (Some (-2)%Z) (Some (Finite 5%Q)) [] true u_s.

End Sample.

(** ** Concrete inputs over the real numbers *)

Module SampleR.

Definition toa (err : R) : TOA R :=
  mkTOA 55000%R 1400%R err 0%R 0%R None None.

(** Three observations with uncertainties of 1, 2 and 2 microseconds. *)
Definition observations : TOAs R :=
  mkTOAs [toa 1%R; toa 2%R; toa 2%R] false false.

(** The first observation alone in the first epoch, the other two together
    in the second. *)
Definition binning : Matrix R :=
  mkMatrix 2 [[1; 0]; [0; 1]; [0; 1]]%R.

Definition ecorr : EcorrNoise R :=
  mkEcorrNoise (fun _ => (binning, [5; 7]%R)).

Definition model : TimingModel R Datatypes.unit :=
  mkTimingModel ["F0"] (fun _ => None) (fun t _ => map (fun _ => tt) (table t))
    true (fun t => map (fun _ => 10%R) (table t))
    (fun t => map (fun _ => 100%R) (table t))
    (Some [ecorr]) (fun t => get_errors t).

Definition residuals : Residuals R Datatypes.unit :=
  mkResiduals (Some observations) (Some model) "toa" true true "nearest"
    None (Some [0; 0; 0]%R) None None [("ecorr", [0; 0; 0]%R)] true u_s.

End SampleR.

(** ** Invariants of a timing model and counts of the specification *)

Section ModelQuantities.
Context {num phase_t : Type}.

(** Every listed parameter name resolves to an attribute of the model. *)
Definition params_resolve (m : TimingModel num phase_t) : Prop :=
  Forall (fun p => attr m p <> None) (params m).

(** The model predicts one phase per observation. *)
Definition phase_per_observation (m : TimingModel num phase_t) : Prop :=
  forall (t : TOAs num) (abs_phase : bool),
    length (phase m t abs_phase) = ntoas t.

Definition is_free (m : TimingModel num phase_t) (p : string) : bool :=
  match attr m p with
  | Some prm => negb (frozen prm)
  | None => false
  end.

(** The number of free (not frozen) parameters among the listed names. *)
Definition free_parameter_count (m : TimingModel num phase_t) : nat :=
  length (filter (is_free m) (params m)).

(** The number of recognized spin-frequency names among the parameters. *)
Definition recognized_count (m : TimingModel num phase_t) : nat :=
  length (filter (fun n => in_params n m) F0names).

End ModelQuantities.

(** ** Phases whose fraction is in range *)

Section PhaseQuantities.
Context {num phase_t : Type} `{Numeric num} `{PhaseOps num phase_t}.

(** Rebuilding a phase from a zero cycle count and the fraction of [p], the
    way the nearest-pulse tracking discards the integer part, gives the
    fraction of [p] back: the fraction is already in the range that the
    constructor keeps. *)
Definition keeps_fraction (p : phase_t) : Prop :=
  phase_full (Phase2 nzero (phase_frac p)) = phase_frac p.

End PhaseQuantities.

(** ** Further concrete inputs *)

Module Sample2.


End Sample2.

(** ** Further concrete inputs over the real numbers *)

Module SampleR2.

(** Modelled from the spec: a phase over the real numbers, an integer
    cycle count and a fractional cycle kept as given, added and subtracted
    part by part. *)
Record RPhase : Type := mkRPhase { rp_int : R; rp_frac : R }.

#[global] Instance R_PhaseOps : PhaseOps R RPhase := {
  Phase2 i f := mkRPhase i f;
  Phase1 x := mkRPhase x 0%R;
  phase_int := rp_int;
  phase_frac := rp_frac;
  phase_add p q := mkRPhase (rp_int p + rp_int q)%R (rp_frac p + rp_frac q)%R;
  phase_sub p q := mkRPhase (rp_int p - rp_int q)%R (rp_frac p - rp_frac q)%R
}.

(** A spin frequency of 100 Hz; phases of a quarter, a half and three
    quarters of a turn after three, five and eight turns. *)
Definition model : TimingModel R RPhase :=
  mkTimingModel ["F0"]
    (fun name => if String.eqb name "F0"
                 then Some (mkParam (PNum 100%R) false "Hz") else None)
    (fun _ _ => [mkRPhase 3 (1 / 4); mkRPhase 5 (1 / 2);
                 mkRPhase 8 (3 / 4)]%R)
    false (fun t => map (fun _ => 10%R) (table t))
    (fun t => map (fun _ => 100%R) (table t))
    None (fun t => get_errors t).

Definition residuals : Residuals R RPhase :=
  mkResiduals (Some SampleR.observations) (Some model) "toa" true false
    "nearest" None None None None [] true u_s.

(** Three wideband measurements against a predicted dispersion measure of
    10, with the plain and with the weighted mean subtracted. *)
Definition wideband (weighted : bool) : WidebandDMResiduals.t R RPhase :=
  WidebandDMResiduals.mk (Some SampleR.observations) (Some model) "dm" u_dm
    true weighted u_dm (dm_value model) [12; 13; 14]%R [1; 1; 2]%R false
    None None.

(** The observations of [SampleR] with time residuals of 5 seconds each
    and the noise residuals as there. *)
Definition equal_residuals : Residuals R Datatypes.unit :=
  mkResiduals (Some SampleR.observations) (Some SampleR.model) "toa" true
    true "nearest" None (Some [5; 5; 5]%R) None None
    [("ecorr", [0; 0; 0]%R)] true u_s.

End SampleR2.

(** ** Further concrete inputs over the rationals *)

Module Sample3.

(** Two objects of type "toa" around one of type "dm". *)
Definition same_type_twice : CombinedResiduals.t Q QPhase :=
  CombinedResiduals.mk
    [CombinedResiduals.Toa Sample.five_residuals;
     CombinedResiduals.Dm Sample.wideband_residuals;
     CombinedResiduals.Toa Sample.zero_error_residuals].

(** A tracking mode that is neither of the two documented ones. *)
Definition misspelled_track : Residuals Q QPhase :=
  mkResiduals (Some Sample.three_toas) (Some Sample.model) "toa" true false
    "use_pulse_number" None None None None [] true u_s.

(** Residuals asked for in phase, with nothing computed yet. *)
Definition unscaled_residuals : Residuals Q QPhase :=
  mkResiduals (Some Sample.three_toas) (Some Sample.model) "toa" true false
    "nearest" None None None None [] false u_s.

End Sample3.

(** * Properties *)

(** ** Sums and elementwise operations *)

Section ArrayFacts.
Context {num : Type} `{Numeric num}.

Lemma sum_upto_ext (n : nat) (f g : nat -> num) :
  (forall i, i < n -> f i = g i) -> sum_upto n f = sum_upto n g.
Proof.
  induction n as [|n IH]; intros Hfg; simpl.
  - reflexivity.
  - rewrite IH by (intros i Hi; apply Hfg; lia).
    rewrite Hfg by lia. reflexivity.
Qed.

Lemma np_sum_snoc (xs : list num) (x : num) :
  np_sum (xs ++ [x]) = nadd (np_sum xs) x.
Proof. unfold np_sum. rewrite fold_left_app. reflexivity. Qed.

Lemma np_sum_sum_upto (d : num) (xs : list num) :
  np_sum xs = sum_upto (length xs) (fun i => nth i xs d).
Proof.
  induction xs as [|x xs IH] using rev_ind.
  - reflexivity.
  - rewrite np_sum_snoc, length_app, Nat.add_1_r. simpl.
    rewrite IH. f_equal.
    + apply sum_upto_ext. intros i Hi. rewrite app_nth1 by exact Hi.
      reflexivity.
    + rewrite app_nth2 by lia. rewrite Nat.sub_diag. reflexivity.
Qed.

Lemma zip_with_length {A B C} (f : A -> B -> C) (xs : list A) (ys : list B) :
  length xs = length ys -> length (zip_with f xs ys) = length xs.
Proof.
  intros Hlen. unfold zip_with. rewrite length_map, length_combine. lia.
Qed.

Lemma zip_with_nth {A B C} (f : A -> B -> C) (xs : list A) (ys : list B)
  (i : nat) (a : A) (b : B) (c : C) :
  i < length xs -> length xs = length ys ->
  nth i (zip_with f xs ys) c = f (nth i xs a) (nth i ys b).
Proof.
  revert ys i. induction xs as [|x xs IH]; intros [|y ys] i Hi Hlen;
    simpl in *; try lia.
  destruct i as [|i]; [reflexivity|].
  apply IH; lia.
Qed.

Lemma broadcast2_same_length {A B C} (f : A -> B -> C) (xs : list A)
  (ys : list B) :
  length xs = length ys -> broadcast2 f xs ys = Ok (zip_with f xs ys).
Proof.
  intros Hlen. unfold broadcast2. rewrite Hlen, Nat.eqb_refl. reflexivity.
Qed.

Lemma any_zero_false_iff (xs : list num) :
  any_zero xs = false <-> Forall (fun x => is_zero x = false) xs.
Proof.
  unfold any_zero. induction xs as [|x xs IH]; simpl.
  - split; [constructor | reflexivity].
  - rewrite orb_false_iff, IH. split.
    + intros [Hx Hxs]. constructor; assumption.
    + intros Hall. inversion Hall; subst. split; assumption.
Qed.

Lemma any_zero_true_iff (xs : list num) :
  any_zero xs = true <-> Exists (fun x => is_zero x = true) xs.
Proof.
  unfold any_zero. rewrite existsb_exists, Exists_exists. reflexivity.
Qed.

End ArrayFacts.

(** ** Chi-squared *)

Section Chi2Facts.
Context {num phase_t : Type} `{Numeric num} `{PhaseOps num phase_t}.
Context {fitter : GLSFitter num phase_t}.

Lemma sum_of_squared_ratios (tr errs : list num) :
  length tr = length errs ->
  np_sum (map sq (zip_with ndiv tr (map us_to_s errs))) =
  chi2_of_ratios tr errs.
Proof.
  intros Hlen. unfold chi2_of_ratios.
  rewrite (np_sum_sum_upto nzero).
  rewrite length_map, zip_with_length by (rewrite length_map; exact Hlen).
  rewrite Hlen. apply sum_upto_ext. intros i Hi.
  rewrite (nth_indep _ nzero (sq nzero))
    by (rewrite length_map, zip_with_length;
        rewrite ?length_map; lia).
  rewrite map_nth.
  rewrite (zip_with_nth ndiv tr (map us_to_s errs) i nzero (us_to_s nzero))
    by (rewrite ?length_map; lia).
  rewrite map_nth. reflexivity.
Qed.

(** Without correlated errors [calc_chi2] reads the errors first. *)
Lemma calc_chi2_any_zero
  (r : Residuals num phase_t) (t : TOAs num) (m : TimingModel num phase_t)
  (full_cov : bool) :
  toas r = Some t ->
  model r = Some m ->
  has_correlated_errors m = false ->
  any_zero (get_errors t) = true ->
  res (calc_chi2 full_cov r) = Ok Inf.
Proof.
  intros Ht Hm Hcorr Hzero.
  cbv [calc_chi2 bind get lift ret res st logs].
  rewrite Hm. cbv [require res st logs]. rewrite Hcorr, Ht.
  cbv [res st logs]. rewrite Hzero. reflexivity.
Qed.

Lemma calc_chi2_no_zero
  (r : Residuals num phase_t) (t : TOAs num) (m : TimingModel num phase_t)
  (full_cov : bool) (tr : list num) :
  toas r = Some t ->
  model r = Some m ->
  has_correlated_errors m = false ->
  any_zero (get_errors t) = false ->
  time_resids r = Some tr ->
  res (calc_chi2 full_cov r) =
  rbind (broadcast2 ndiv tr (map us_to_s (get_errors t)))
        (fun q => Ok (Finite (np_sum (map sq q)))).
Proof.
  intros Ht Hm Hcorr Hnz Htr.
  cbv [calc_chi2 bind get lift ret res st logs].
  rewrite Hm. cbv [require res st logs]. rewrite Hcorr, Ht.
  cbv [res st logs]. rewrite Hnz, Htr.
  destruct (broadcast2 ndiv tr (map us_to_s (get_errors t))); reflexivity.
Qed.

(** C1.  For a model without correlated errors, [calc_chi2] returns
    infinity as soon as one uncertainty is exactly zero; when every
    uncertainty is nonzero it returns the sum over the observations of
    (time residual / uncertainty in seconds) squared, for two observations
    or more. *)
Theorem calc_chi2_independent_errors
  (r : Residuals num phase_t) (t : TOAs num) (m : TimingModel num phase_t)
  (full_cov : bool) :
  toas r = Some t ->
  model r = Some m ->
  has_correlated_errors m = false ->
  (Exists (fun e => is_zero e = true) (get_errors t) ->
   res (calc_chi2 full_cov r) = Ok Inf) /\
  (forall tr : list num,
      time_resids r = Some tr ->
      length tr = ntoas t ->
      2 <= ntoas t ->
      Forall (fun e => is_zero e = false) (get_errors t) ->
      res (calc_chi2 full_cov r) =
      Ok (Finite (chi2_of_ratios tr (get_errors t)))).
Proof.
  intros Ht Hm Hcorr. split.
  - intros Hzero. apply any_zero_true_iff in Hzero.
    apply (calc_chi2_any_zero r t m full_cov Ht Hm Hcorr Hzero).
  - intros tr Htr Hlen _ Hnz. apply any_zero_false_iff in Hnz.
    rewrite (calc_chi2_no_zero r t m full_cov tr Ht Hm Hcorr Hnz Htr).
    assert (Hl : length tr = length (get_errors t))
      by (unfold get_errors; rewrite length_map; exact Hlen).
    rewrite broadcast2_same_length by (rewrite length_map; exact Hl).
    cbn [rbind]. rewrite sum_of_squared_ratios by exact Hl. reflexivity.
Qed.

End Chi2Facts.

Lemma calc_chi2_independent_errors_witness :
  res (calc_chi2 false
         (Sample.residuals (Some (Sample.toas_with_errors [1; 2]%Q))
            (Some Sample.model) (Some [1 # 1000000; 4 # 1000000]%Q)))
  = Ok (Finite 5%Q) /\
  res (calc_chi2 false
         (Sample.residuals (Some (Sample.toas_with_errors [1; 0]%Q))
            (Some Sample.model) (Some [1 # 1000000; 4 # 1000000]%Q)))
  = Ok Inf.
Proof.
  split.
  - rewrite (proj2 (calc_chi2_independent_errors
                      (Sample.residuals
                         (Some (Sample.toas_with_errors [1; 2]%Q))
                         (Some Sample.model)
                         (Some [1 # 1000000; 4 # 1000000]%Q))
                      (Sample.toas_with_errors [1; 2]%Q) Sample.model false
                      eq_refl eq_refl eq_refl)
               [1 # 1000000; 4 # 1000000]%Q eq_refl eq_refl).
    + reflexivity.
    + apply le_n.
    + repeat constructor.
  - apply (proj1 (calc_chi2_independent_errors
                    (Sample.residuals
                       (Some (Sample.toas_with_errors [1; 0]%Q))
                       (Some Sample.model)
                       (Some [1 # 1000000; 4 # 1000000]%Q))
                    (Sample.toas_with_errors [1; 0]%Q) Sample.model false
                    eq_refl eq_refl eq_refl)).
    apply Exists_cons_tl, Exists_cons_hd. reflexivity.
Defined.

Section CorrelatedChi2.
Context {num phase_t : Type} `{Numeric num} `{PhaseOps num phase_t}.
Context {fitter : GLSFitter num phase_t}.

(** C4.  When the model declares correlated errors, [calc_chi2] is the
    outcome of the generalized-least-squares evaluator asked for zero
    iterations: its chi-squared is returned, a [LinAlgError] is caught,
    logged as a warning and turned into infinity, and any other exception
    propagates. *)
Theorem calc_chi2_correlated_errors
  (r : Residuals num phase_t) (m : TimingModel num phase_t) (full_cov : bool) :
  model r = Some m ->
  has_correlated_errors m = true ->
  (forall e : string,
      fit_toas (toas r) m r 0%Z full_cov = Raise (LinAlgError e) ->
      res (calc_chi2 full_cov r) = Ok Inf /\
      logs (calc_chi2 full_cov r) = [degenerate_warning e] /\
      st (calc_chi2 full_cov r) = r) /\
  (forall c : ext num,
      fit_toas (toas r) m r 0%Z full_cov = Ok c ->
      res (calc_chi2 full_cov r) = Ok c /\
      logs (calc_chi2 full_cov r) = []) /\
  (forall e : exn,
      fit_toas (toas r) m r 0%Z full_cov = Raise e ->
      (forall msg, e <> LinAlgError msg) ->
      res (calc_chi2 full_cov r) = Raise e).
Proof.
  intros Hm Hcorr.
  cbv [calc_chi2 bind get lift log_warning ret res st logs].
  rewrite Hm. cbv [require res st logs]. rewrite Hcorr.
  split; [|split].
  - intros e Hfit. rewrite Hfit. repeat split.
  - intros c Hfit. rewrite Hfit. split; reflexivity.
  - intros e Hfit Hother. rewrite Hfit.
    destruct e; try reflexivity.
    exfalso. apply (Hother msg). reflexivity.
Qed.

End CorrelatedChi2.

Lemma calc_chi2_correlated_errors_witness :
  res (calc_chi2 false Sample.correlated_residuals) = Ok Inf /\
  logs (calc_chi2 false Sample.correlated_residuals) =
    ["Degenerate conditions encountered when computing chi-squared: Singular matrix"] /\
  st (calc_chi2 false Sample.correlated_residuals) = Sample.correlated_residuals.
Proof.
  exact (proj1 (calc_chi2_correlated_errors Sample.correlated_residuals
                  Sample.correlated_model false eq_refl eq_refl)
           "Singular matrix" eq_refl).
Defined.

(** ** Degrees of freedom *)

Section DegreesOfFreedom.
Context {num phase_t : Type} `{Numeric num} `{PhaseOps num phase_t}.

Lemma subtract_free_count (m : TimingModel num phase_t) (ps : list string)
  (dof : Z) :
  Forall (fun p => attr m p <> None) ps ->
  subtract_free m ps dof =
  Ok (dof - Z.of_nat (length (filter (is_free m) ps)))%Z.
Proof.
  revert dof. induction ps as [|p ps IH]; intros dof Hres; simpl.
  - f_equal. lia.
  - inversion Hres as [|? ? Hp Hps]; subst.
    assert (Hfree : is_free m p =
                    match attr m p with
                    | Some prm => negb (frozen prm)
                    | None => false
                    end) by reflexivity.
    unfold getattr. destruct (attr m p) as [prm|]; [|contradiction].
    simpl. rewrite IH by exact Hps. rewrite Hfree. f_equal.
    destruct (frozen prm); simpl; lia.
Qed.

(** C5.  [get_dof] is the number of observations minus the number of free
    parameters minus one: seven for ten observations and two free
    parameters, and one less for a model with one more free parameter on as
    many observations. *)
Theorem get_dof_formula
  (r : Residuals num phase_t) (t : TOAs num) (m : TimingModel num phase_t) :
  toas r = Some t ->
  model r = Some m ->
  params_resolve m ->
  get_dof r =
    Ok (Z.of_nat (ntoas t) - Z.of_nat (free_parameter_count m) - 1)%Z /\
  (ntoas t = 10 -> free_parameter_count m = 2 -> get_dof r = Ok 7%Z) /\
  (forall (r' : Residuals num phase_t) (t' : TOAs num)
          (m' : TimingModel num phase_t),
      toas r' = Some t' -> model r' = Some m' -> params_resolve m' ->
      ntoas t' = ntoas t ->
      free_parameter_count m' = S (free_parameter_count m) ->
      exists d : Z, get_dof r = Ok d /\ get_dof r' = Ok (d - 1)%Z).
Proof.
  intros Ht Hm Hres.
  assert (Hdof : forall (r0 : Residuals num phase_t) (t0 : TOAs num)
                        (m0 : TimingModel num phase_t),
             toas r0 = Some t0 -> model r0 = Some m0 -> params_resolve m0 ->
             get_dof r0 =
             Ok (Z.of_nat (ntoas t0) - Z.of_nat (free_parameter_count m0) - 1)%Z).
  { intros r0 t0 m0 Ht0 Hm0 Hres0. unfold get_dof.
    rewrite Ht0, Hm0. simpl.
    rewrite subtract_free_count by exact Hres0. reflexivity. }
  split; [|split].
  - apply Hdof; assumption.
  - intros Hn Hk. rewrite (Hdof r t m) by assumption.
    rewrite Hn, Hk. reflexivity.
  - intros r' t' m' Ht' Hm' Hres' Hn Hk.
    exists (Z.of_nat (ntoas t) - Z.of_nat (free_parameter_count m) - 1)%Z.
    split.
    + apply Hdof; assumption.
    + rewrite (Hdof r' t' m') by assumption. rewrite Hn, Hk. f_equal. lia.
Qed.

End DegreesOfFreedom.

Lemma get_dof_formula_witness :
  ntoas Sample.ten_observations = 10 /\
  free_parameter_count Sample.model = 2 /\
  get_dof Sample.ten_residuals = Ok 7%Z.
Proof.
  split; [reflexivity|]. split; [reflexivity|].
  apply (proj1 (proj2 (get_dof_formula Sample.ten_residuals
                         Sample.ten_observations Sample.model
                         eq_refl eq_refl
                         ltac:(repeat constructor; discriminate)))).
  - reflexivity.
  - reflexivity.
Defined.

(** ** Recomputation *)

Section Update.
Context {num phase_t : Type} `{Numeric num} `{PhaseOps num phase_t}.
Context {fitter : GLSFitter num phase_t}.

(** C10.  [update] on an object without observations or without a model
    raises the configuration error only after it has overwritten the stored
    phase and time residuals with [None]; nothing else of the object
    changes. *)
Theorem update_not_atomic (r : Residuals num phase_t) :
  toas r = None \/ model r = None ->
  res (update r) =
    Raise (ValueError (if is_None (toas r)
                       then "No TOAs provided for residuals update"
                       else "No model provided for residuals update")) /\
  phase_resids (st (update r)) = None /\
  time_resids (st (update r)) = None /\
  st (update r) = set_time_resids None (set_phase_resids None r).
Proof.
  intros Habsent. destruct r as [t m ? ? ? ? ? ? ? ? ? ? ?].
  cbn [toas model] in Habsent.
  destruct t as [t|]; destruct m as [m|];
    cbv [update bind get assign raise ret res st logs is_None orb toas model
         set_phase_resids set_time_resids phase_resids time_resids];
    try (repeat split; fail).
  destruct Habsent; discriminate.
Qed.

End Update.

Lemma update_not_atomic_witness :
  phase_resids Sample.orphaned_residuals = Some [1 # 4; -1 # 2]%Q /\
  time_resids Sample.orphaned_residuals = Some [1 # 400; -1 # 200]%Q /\
  res (update Sample.orphaned_residuals) =
    Raise (ValueError "No model provided for residuals update") /\
  phase_resids (st (update Sample.orphaned_residuals)) = None /\
  time_resids (st (update Sample.orphaned_residuals)) = None.
Proof.
  split; [reflexivity|]. split; [reflexivity|].
  destruct (update_not_atomic Sample.orphaned_residuals (or_intror eq_refl))
    as (Hres & Hphase & Htime & _).
  split; [exact Hres|]. split; [exact Hphase | exact Htime].
Defined.

(** ** Wideband residuals after a change of model *)

Section WidebandUpdate.
Context {num phase_t : Type} `{Numeric num}.

(** C9.  [update_model] replaces [model] and stores the prediction
    function of the new model in [model_func]; [get_model_value], bound to
    the model given at construction, stays, and it is the one [calc_resids]
    reads: the residuals after [update_model] are those before it, computed
    from the predictions of the old model.  Without the mean subtracted they
    are the data minus the predictions of the old model converted to the
    unit of the data, which is no conversion for the default unit,
    pc / cm^3, and an error for a unit of another dimension. *)
Theorem update_model_keeps_old_predictions
  (observations : option (TOAs num)) (old new : TimingModel num phase_t)
  (residual_type : string) (unit_ : unit_t)
  (subtract_mean use_weighted_mean scaled_by_F0 : bool)
  (w : WidebandDMResiduals.t num phase_t) :
  WidebandDMResiduals.init observations (Some old) residual_type unit_
    subtract_mean use_weighted_mean scaled_by_F0 = Ok w ->
  res (WidebandDMResiduals.update_model (Some new) w) = Ok tt /\
  WidebandDMResiduals.model
    (st (WidebandDMResiduals.update_model (Some new) w)) = Some new /\
  WidebandDMResiduals.model_func
    (st (WidebandDMResiduals.update_model (Some new) w))
    = Some (dm_value new) /\
  WidebandDMResiduals.get_model_value
    (st (WidebandDMResiduals.update_model (Some new) w)) = dm_value old /\
  WidebandDMResiduals.calc_resids
    (st (WidebandDMResiduals.update_model (Some new) w))
    = WidebandDMResiduals.calc_resids w /\
  (forall t : TOAs num,
      observations = Some t -> subtract_mean = false ->
      WidebandDMResiduals.calc_resids
        (st (WidebandDMResiduals.update_model (Some new) w))
      = (model_value <-- to_unit u_dm unit_ (dm_value old t) ;;
         broadcast2 nsub (WidebandDMResiduals.dm_data w) model_value) /\
      (unit_ = u_dm ->
       WidebandDMResiduals.calc_resids
         (st (WidebandDMResiduals.update_model (Some new) w))
       = broadcast2 nsub (WidebandDMResiduals.dm_data w) (dm_value old t))).
Proof.
  intros Hinit. unfold WidebandDMResiduals.init in Hinit. simpl in Hinit.
  destruct (WidebandDMResiduals.get_dm_data observations) as [dm|e];
    simpl in Hinit; [|discriminate].
  injection Hinit as <-.
  do 5 (split; [reflexivity|]).
  intros t -> ->. split.
  - unfold WidebandDMResiduals.calc_resids. simpl.
    destruct (to_unit u_dm unit_ (dm_value old t)) as [mv|e];
      cbn [rbind]; [|reflexivity].
    destruct (broadcast2 nsub (fst dm) mv); reflexivity.
  - intros ->.
    unfold WidebandDMResiduals.calc_resids, to_unit. simpl.
    destruct (broadcast2 nsub (fst dm) (dm_value old t)); reflexivity.
Qed.

End WidebandUpdate.

Lemma update_model_keeps_old_predictions_witness :
  WidebandDMResiduals.init (Some Sample.wideband_toas) (Some Sample.model)
    "dm" u_dm false true false = Ok Sample.wideband_residuals /\
  WidebandDMResiduals.model
    (st (WidebandDMResiduals.update_model (Some Sample.new_model)
           Sample.wideband_residuals))
    = Some Sample.new_model /\
  dm_value Sample.model Sample.wideband_toas = [10; 10; 10]%Q /\
  dm_value Sample.new_model Sample.wideband_toas = [20; 20; 20]%Q /\
  WidebandDMResiduals.calc_resids
    (st (WidebandDMResiduals.update_model (Some Sample.new_model)
           Sample.wideband_residuals))
    = Ok [2; 3; 4]%Q.
Proof.
  split; [reflexivity|].
  destruct (update_model_keeps_old_predictions
              (Some Sample.wideband_toas) Sample.model Sample.new_model
              "dm" u_dm false true false Sample.wideband_residuals eq_refl)
    as (_ & Hmodel & _ & _ & _ & Hresids).
  split; [exact Hmodel|].
  split; [reflexivity|]. split; [reflexivity|].
  rewrite (proj2 (Hresids Sample.wideband_toas eq_refl eq_refl) eq_refl).
  reflexivity.
Defined.

(** ** Phase residuals *)

Section PhaseResiduals.
Context {num phase_t : Type} `{Numeric num} `{PhaseOps num phase_t}.
Context {fitter : GLSFitter num phase_t}.

Lemma zip_with_repeat {A B C} (f : A -> B -> C) (xs : list A) (z : B) :
  zip_with f xs (repeat z (length xs)) = map (fun x => f x z) xs.
Proof.
  unfold zip_with. induction xs as [|x xs IH]; simpl.
  - reflexivity.
  - rewrite IH. reflexivity.
Qed.

Lemma zero_delta_pulse_number_table (t : TOAs num) :
  table (zero_delta_pulse_number t) =
  map (fun row => mkTOA (mjd row) (freq row) (error row) nzero
                    (pulse_number row) (pp_dm row) (pp_dme row)) (table t).
Proof.
  unfold zero_delta_pulse_number, get_mjds, np_zeros. cbn [table].
  rewrite length_map. apply zip_with_repeat.
Qed.

Lemma ensure_delta_pulse_number_errors (t : TOAs num) :
  get_errors (ensure_delta_pulse_number t) = get_errors t.
Proof.
  unfold ensure_delta_pulse_number.
  destruct (has_delta_pulse_number t); [reflexivity|].
  unfold get_errors. rewrite zero_delta_pulse_number_table, map_map.
  reflexivity.
Qed.

Lemma ensure_delta_pulse_number_ntoas (t : TOAs num) :
  ntoas (ensure_delta_pulse_number t) = ntoas t.
Proof.
  unfold ensure_delta_pulse_number.
  destruct (has_delta_pulse_number t); [reflexivity|].
  unfold ntoas. rewrite zero_delta_pulse_number_table, length_map.
  reflexivity.
Qed.

Lemma ensure_delta_pulse_number_has_pulse_number (t : TOAs num) :
  has_pulse_number (ensure_delta_pulse_number t) = has_pulse_number t.
Proof.
  unfold ensure_delta_pulse_number.
  destruct (has_delta_pulse_number t); reflexivity.
Qed.

(** The outcome of [calc_phase_resids] is the tracking block followed by
    the mean block, both on the observations with the column in place. *)
Lemma calc_phase_resids_res (r : Residuals num phase_t) (t : TOAs num) :
  toas r = Some t ->
  res (calc_phase_resids r) =
  rbind (tracked_phase r (ensure_delta_pulse_number t))
        (remove_mean r (ensure_delta_pulse_number t)).
Proof.
  intros Ht.
  cbv [calc_phase_resids bind get lift assign res st logs].
  rewrite Ht. cbv [require res st logs].
  destruct (tracked_phase r (ensure_delta_pulse_number t)); reflexivity.
Qed.

Lemma model_phase_per_observation (m : TimingModel num phase_t) (t : TOAs num)
  (abs_phase : bool) :
  phase_per_observation m ->
  exists modelphase : list phase_t,
    model_phase m t abs_phase = Ok modelphase /\
    length modelphase = ntoas t.
Proof.
  intros Hlen. unfold model_phase.
  assert (Hl : length (phase m t abs_phase) =
               length (map Phase1 (map delta_pulse_number (table t))))
    by (rewrite !length_map; apply Hlen).
  rewrite broadcast2_same_length by exact Hl.
  eexists. split; [reflexivity|].
  rewrite zip_with_length by exact Hl. apply Hlen.
Qed.

(** The tracking block succeeds on a model that predicts one phase per
    observation, once there is an observation and the pulse numbers that
    the tracking mode may ask for. *)
Lemma tracked_phase_succeeds (r : Residuals num phase_t) (t : TOAs num)
  (m : TimingModel num phase_t) :
  model r = Some m ->
  phase_per_observation m ->
  (track_mode r = "use_pulse_numbers" -> has_pulse_number t = true) ->
  0 < ntoas t ->
  exists full : list num, tracked_phase r t = Ok full.
Proof.
  intros Hm Hphase Hpulse Hpos. unfold tracked_phase.
  destruct (String.eqb (track_mode r) "use_pulse_numbers") eqn:Hmode.
  - apply String.eqb_eq in Hmode. unfold get_pulse_numbers.
    rewrite (Hpulse Hmode), Hm. cbn [require rbind].
    destruct (model_phase_per_observation m t true Hphase)
      as (modelphase & -> & Hlen).
    cbn [rbind]. rewrite broadcast2_same_length
      by (rewrite !length_map; exact Hlen).
    cbn [rbind]. eexists. reflexivity.
  - rewrite Hm. cbn [require rbind].
    destruct (model_phase_per_observation m t false Hphase)
      as (modelphase & -> & Hlen).
    cbn [rbind]. destruct (subtract_mean r).
    + destruct modelphase as [|first others];
        [simpl in Hlen; lia|].
      cbn [index0 rbind]. eexists. reflexivity.
    + cbn [rbind]. eexists. reflexivity.
Qed.

(** C2.  The two policies for an observation set with an uncertainty that
    is exactly zero: the chi-squared of independent errors is infinity, a
    value the caller can continue with, while the weighted mean of the phase
    residuals raises the error. *)
Theorem zero_uncertainty_policies
  (r : Residuals num phase_t) (t : TOAs num) (m : TimingModel num phase_t)
  (full_cov : bool) :
  toas r = Some t ->
  model r = Some m ->
  Exists (fun e => is_zero e = true) (get_errors t) ->
  (has_correlated_errors m = false ->
   res (calc_chi2 full_cov r) = Ok Inf) /\
  (subtract_mean r = true ->
   use_weighted_mean r = true ->
   phase_per_observation m ->
   (track_mode r = "use_pulse_numbers" -> has_pulse_number t = true) ->
   res (calc_phase_resids r) =
   Raise (ValueError "Some TOA errors are zero - cannot calculate residuals")).
Proof.
  intros Ht Hm Hzero. split.
  - intros Hcorr. apply any_zero_true_iff in Hzero.
    apply (calc_chi2_any_zero r t m full_cov Ht Hm Hcorr Hzero).
  - intros Hsub Hweighted Hphase Hpulse.
    rewrite (calc_phase_resids_res r t Ht).
    destruct (tracked_phase_succeeds r (ensure_delta_pulse_number t) m Hm
                Hphase) as (full & ->).
    + rewrite ensure_delta_pulse_number_has_pulse_number. exact Hpulse.
    + rewrite ensure_delta_pulse_number_ntoas. unfold ntoas.
      unfold get_errors in Hzero. apply Exists_exists in Hzero.
      destruct Hzero as (e & Hin & _).
      destruct (table t); [contradiction | simpl; lia].
    + cbn [rbind]. unfold remove_mean.
      rewrite Hsub, Hweighted, ensure_delta_pulse_number_errors.
      apply any_zero_true_iff in Hzero. rewrite Hzero. reflexivity.
Qed.

End PhaseResiduals.

Lemma sample_phase_per_observation (entries : list (string * Param Q))
  (correlated : bool) (dm : Q) :
  phase_per_observation (Sample.model_with entries correlated dm).
Proof. intros t abs_phase. apply length_map. Qed.

Lemma zero_uncertainty_policies_witness :
  get_errors Sample.zero_error_toas = [1; 0]%Q /\
  res (calc_chi2 false Sample.zero_error_residuals) = Ok Inf /\
  res (calc_phase_resids Sample.zero_error_residuals) =
    Raise (ValueError "Some TOA errors are zero - cannot calculate residuals").
Proof.
  split; [reflexivity|].
  destruct (zero_uncertainty_policies Sample.zero_error_residuals
              Sample.zero_error_toas Sample.model false eq_refl eq_refl
              ltac:(apply Exists_cons_tl, Exists_cons_hd; reflexivity))
    as (Hchi2 & Hphase).
  split.
  - apply Hchi2. reflexivity.
  - apply Hphase.
    + reflexivity.
    + reflexivity.
    + apply sample_phase_per_observation.
    + intros Hmode. discriminate Hmode.
Defined.

Section NearestTracking.
Context {num phase_t : Type} `{Numeric num} `{PhaseOps num phase_t}.
Context {fitter : GLSFitter num phase_t}.

Lemma map_keeps_fraction (ps : list phase_t) :
  Forall keeps_fraction ps ->
  map phase_full (map (fun p => Phase2 nzero (phase_frac p)) ps) =
  map phase_frac ps.
Proof.
  induction 1 as [|p ps Hp _ IH]; simpl.
  - reflexivity.
  - rewrite IH. unfold keeps_fraction in Hp. rewrite Hp. reflexivity.
Qed.

(** C3.  Under nearest-pulse tracking the phase of the first observation
    is taken off before the integer part is discarded when, and only when,
    the mean is to be subtracted: without mean subtraction the result is the
    fractions of the model phases as they are; with it, the result is the
    mean block applied to the fractions of the model phases relative to the
    first one. *)
Theorem nearest_tracking_reference
  (r : Residuals num phase_t) (t : TOAs num) (m : TimingModel num phase_t)
  (modelphase : list phase_t) :
  toas r = Some t ->
  model r = Some m ->
  track_mode r <> "use_pulse_numbers" ->
  model_phase m (ensure_delta_pulse_number t) false = Ok modelphase ->
  (subtract_mean r = false ->
   Forall keeps_fraction modelphase ->
   res (calc_phase_resids r) = Ok (map phase_frac modelphase)) /\
  (subtract_mean r = true ->
   forall (first : phase_t) (others : list phase_t),
     modelphase = first :: others ->
     Forall keeps_fraction
       (map (fun p => phase_sub p
                        (Phase2 (phase_int first) (phase_frac first)))
          modelphase) ->
     res (calc_phase_resids r) =
     remove_mean r (ensure_delta_pulse_number t)
       (map phase_frac
          (map (fun p => phase_sub p
                           (Phase2 (phase_int first) (phase_frac first)))
             modelphase))).
Proof.
  intros Ht Hm Hmode Hphase.
  apply String.eqb_neq in Hmode.
  rewrite (calc_phase_resids_res r t Ht).
  unfold tracked_phase. rewrite Hmode, Hm. cbn [require rbind].
  rewrite Hphase. cbn [rbind]. split.
  - intros Hsub Hkeeps. rewrite Hsub. cbn [rbind].
    rewrite map_keeps_fraction by exact Hkeeps.
    unfold remove_mean. rewrite Hsub. reflexivity.
  - intros Hsub first others -> Hkeeps. rewrite Hsub.
    cbn [index0 rbind]. rewrite map_keeps_fraction by exact Hkeeps.
    reflexivity.
Qed.

End NearestTracking.

Lemma nearest_tracking_reference_witness :
  model_phase Sample.model (ensure_delta_pulse_number Sample.three_toas) false
  = Ok [mkQPhase 0 (1 # 4); mkQPhase 2 (-1 # 2); mkQPhase 3 (-1 # 4)]%Q /\
  res (calc_phase_resids Sample.raw_residuals)
  = Ok [1 # 4; -1 # 2; -1 # 4]%Q /\
  res (calc_phase_resids Sample.mean_subtracted_residuals)
  = remove_mean Sample.mean_subtracted_residuals
      (ensure_delta_pulse_number Sample.three_toas) [0; 1 # 4; -1 # 2]%Q /\
  res (calc_phase_resids Sample.mean_subtracted_residuals)
  = Ok [1 # 12; 1 # 3; -5 # 12]%Q.
Proof.
  split; [reflexivity|]. split.
  - apply (proj1 (nearest_tracking_reference Sample.raw_residuals
                    Sample.three_toas Sample.model _ eq_refl eq_refl
                    ltac:(discriminate) eq_refl)).
    + reflexivity.
    + repeat constructor.
  - assert (Hshifted :
              res (calc_phase_resids Sample.mean_subtracted_residuals)
              = remove_mean Sample.mean_subtracted_residuals
                  (ensure_delta_pulse_number Sample.three_toas)
                  [0; 1 # 4; -1 # 2]%Q).
    { apply (proj2 (nearest_tracking_reference
                      Sample.mean_subtracted_residuals
                      Sample.three_toas Sample.model _ eq_refl eq_refl
                      ltac:(discriminate) eq_refl)
               eq_refl (mkQPhase 0 (1 # 4)) _ eq_refl).
      repeat constructor. }
    split; [exact Hshifted|].
    rewrite Hshifted. reflexivity.
Defined.

(** ** Combined residuals *)

Section Combined.
Context {num phase_t : Type} `{Numeric num} `{PhaseOps num phase_t}.
Context {fitter : GLSFitter num phase_t}.

Local Notation "'source'" := (CombinedResiduals.residual_obj num phase_t).

Lemma for_each_all_ok {A B} (method : source -> out source A)
  (step : B -> A -> B) (objs : list source) (results : list A) (acc : B) :
  Forall2 (fun o a => res (method o) = Ok a) objs results ->
  res (CombinedResiduals.for_each method step objs acc)
  = Ok (fold_left step results acc) /\
  st (CombinedResiduals.for_each method step objs acc)
  = map (fun o => st (method o)) objs.
Proof.
  intros Hall. revert acc.
  induction Hall as [|o a objs results Ho _ IH]; intros acc.
  - split; reflexivity.
  - cbn [CombinedResiduals.for_each]. rewrite Ho.
    cbn [res st map fold_left].
    destruct (IH (step acc a)) as [Hres Hst].
    rewrite Hres, Hst. split; reflexivity.
Qed.

Lemma fold_left_snoc {A} (xs acc : list A) :
  fold_left (fun all x => (all ++ [x])%list) xs acc = (acc ++ xs)%list.
Proof.
  revert acc. induction xs as [|x xs IH]; intros acc; simpl.
  - rewrite app_nil_r. reflexivity.
  - rewrite IH, <- app_assoc. reflexivity.
Qed.

Lemma length_concat_sum {A} (xss : list (list A)) :
  length (concat xss) = list_sum (map (@length A) xss).
Proof.
  induction xss as [|xs xss IH]; simpl.
  - reflexivity.
  - rewrite length_app, IH. reflexivity.
Qed.

Lemma res_bind {S A B} (c : M S A) (k : A -> M S B) (s : S) :
  res (bind c k s) =
  match res (c s) with
  | Ok a => res (k a (st (c s)))
  | Raise e => Raise e
  end.
Proof. unfold bind. destruct (res (c s)); reflexivity. Qed.

Lemma st_bind {S A B} (c : M S A) (k : A -> M S B) (s : S) :
  st (bind c k s) =
  match res (c s) with
  | Ok a => st (k a (st (c s)))
  | Raise e => st (c s)
  end.
Proof. unfold bind. destruct (res (c s)); reflexivity. Qed.

(** The property [chi2] of a residual object leaves what it returns in the
    cache of the object. *)
Lemma obj_chi2_cached (o : source) (c : ext num) :
  res (CombinedResiduals.obj_chi2 o) = Ok c ->
  CombinedResiduals.obj_cached_chi2 (st (CombinedResiduals.obj_chi2 o))
  = Some c.
Proof.
  destruct o as [r|w];
    cbn [CombinedResiduals.obj_chi2 CombinedResiduals.obj_cached_chi2 res st].
  - unfold chi2. rewrite res_bind, st_bind. cbn [get res st].
    destruct (_chi2 r) as [c0|] eqn:Hcache.
    + cbn [ret res st]. intros Hc. injection Hc as <-. exact Hcache.
    + rewrite res_bind, st_bind.
      destruct (res (calc_chi2 false r)) as [c1|e]; [|discriminate].
      rewrite res_bind, st_bind. cbn [assign ret res st].
      intros Hc. injection Hc as <-. reflexivity.
  - unfold WidebandDMResiduals.chi2. rewrite res_bind, st_bind.
    cbn [get res st].
    destruct (WidebandDMResiduals._chi2 w) as [c0|] eqn:Hcache.
    + cbn [ret res st]. intros Hc. injection Hc as <-. exact Hcache.
    + rewrite res_bind, st_bind. cbn [lift res st].
      destruct (WidebandDMResiduals.calc_chi2 w) as [c1|e]; [|discriminate].
      rewrite res_bind, st_bind. cbn [ret res st].
      intros Hc. injection Hc as <-. reflexivity.
Qed.

(** C6, amended.  For a list of residual sources that is not empty, the
    value vector of the combination is the concatenation, in the order of
    the list, of the value vectors of the sources, so that its length is the
    sum of their lengths; and, for any list, the chi-squared of the
    combination is the sum of the chi-squared values of the sources, each of
    which is left in the cache of its source. *)
Theorem combined_resids_and_chi2 (objs : list source) :
  (forall values : list (list num),
      objs <> [] ->
      Forall2 (fun o v => res (CombinedResiduals.obj_resids_value o) = Ok v)
        objs values ->
      res (CombinedResiduals.resids (CombinedResiduals.mk objs))
      = Ok (concat values) /\
      length (concat values) = list_sum (map (@length num) values)) /\
  (forall scalars : list (ext num),
      Forall2 (fun o c => res (CombinedResiduals.obj_chi2 o) = Ok c)
        objs scalars ->
      res (CombinedResiduals.chi2 (CombinedResiduals.mk objs))
      = Ok (ext_sum scalars) /\
      Forall2 (fun o c => CombinedResiduals.obj_cached_chi2 o = Some c)
        (CombinedResiduals.residual_objs
           (st (CombinedResiduals.chi2 (CombinedResiduals.mk objs))))
        scalars).
Proof.
  split.
  - intros values Hne Hall.
    destruct (for_each_all_ok CombinedResiduals.obj_resids_value
                (fun all_resids v => (all_resids ++ [v])%list) objs values []
                Hall)
      as [Hres _].
    split; [|apply length_concat_sum].
    cbv [CombinedResiduals.resids CombinedResiduals.residual_objs].
    rewrite Hres.
    rewrite fold_left_snoc. cbn [app res].
    destruct values as [|v values]; [|reflexivity].
    inversion Hall; subst. contradiction.
  - intros scalars Hall.
    destruct (for_each_all_ok CombinedResiduals.obj_chi2 ext_add objs scalars
                (Finite nzero) Hall) as [Hres Hst].
    cbv [CombinedResiduals.chi2 CombinedResiduals.residual_objs res st].
    split.
    + exact Hres.
    + fold (st (CombinedResiduals.for_each CombinedResiduals.obj_chi2 ext_add
                  objs (Finite nzero))).
      rewrite Hst. clear Hres Hst.
      induction Hall as [|o c objs scalars Ho _ IH]; cbn [map].
      * constructor.
      * constructor; [apply obj_chi2_cached; exact Ho | exact IH].
Qed.

End Combined.

(** The claim of C6 fails on the empty list of sources: [np.hstack] refuses
    it, so no vector is produced. *)
Lemma combined_resids_empty_list :
  res (CombinedResiduals.resids
         (CombinedResiduals.mk (@nil (CombinedResiduals.residual_obj Q QPhase))))
  = Raise (ValueError "need at least one array to concatenate") /\
  res (CombinedResiduals.resids
         (CombinedResiduals.mk (@nil (CombinedResiduals.residual_obj Q QPhase))))
  <> Ok (concat (@nil (list Q))).
Proof.
  split; [reflexivity | discriminate].
Qed.

Lemma combined_resids_and_chi2_witness :
  res (CombinedResiduals.resids Sample.combined)
  = Ok [1 # 1000000; 1 # 500000; 0; -1 # 1000000; 1 # 1000000; 2; 3; 4]%Q /\
  length [1 # 1000000; 1 # 500000; 0; -1 # 1000000; 1 # 1000000; 2; 3; 4]%Q
  = 5 + 3 /\
  res (chi2 Sample.five_residuals) = Ok (Finite 7%Q) /\
  res (WidebandDMResiduals.chi2 Sample.wideband_residuals) = Ok (Finite 17%Q) /\
  res (CombinedResiduals.chi2 Sample.combined) = Ok (Finite 24%Q).
Proof.
  destruct (combined_resids_and_chi2
              (CombinedResiduals.residual_objs Sample.combined))
    as [Hresids Hchi2].
  destruct (Hresids [[1 # 1000000; 1 # 500000; 0; -1 # 1000000; 1 # 1000000];
                     [2; 3; 4]]%Q
              ltac:(discriminate) ltac:(repeat constructor))
    as [Hvalues Hlength].
  destruct (Hchi2 [Finite 7%Q; Finite 17%Q] ltac:(repeat constructor))
    as [Htotal _].
  split; [exact Hvalues|]. split; [exact Hlength|].
  split; [reflexivity|]. split; [reflexivity|].
  exact Htotal.
Defined.

(** ** The spin frequency *)

Section SpinFrequency.
Context {num phase_t : Type} `{Numeric num} `{PhaseOps num phase_t}.

(** C8, amended.  When the frequency of the model is asked for, the model
    defines [F0] in Hz and every recognized name among its parameters
    resolves to a parameter with a numeric value, [get_PSR_freq] raises the
    configuration error exactly when the number of recognized names among
    the parameters is not one, and with exactly one it returns the value of
    that parameter in Hz. *)
Theorem get_PSR_freq_exactly_one
  (r : Residuals num phase_t) (m : TimingModel num phase_t)
  (F0 : Param num) :
  model r = Some m ->
  attr m "F0" = Some F0 ->
  units F0 = "Hz" ->
  (forall n : string,
      In n F0names -> in_params n m = true ->
      exists (p : Param num) (x : num),
        attr m n = Some p /\ value p = PNum x) ->
  (recognized_count m <> 1 <->
   exists msg : string, get_PSR_freq r true = Raise (ValueError msg)) /\
  (recognized_count m = 1 ->
   forall (n : string) (p : Param num) (x : num),
     In n F0names -> in_params n m = true ->
     attr m n = Some p -> value p = PNum x ->
     get_PSR_freq r true = Ok (Hz x)).
Proof.
  intros Hm HF0 _ Hnumeric.
  assert (Hnum : forall n, In n F0names -> in_params n m = true ->
                   exists p x, attr m n = Some p /\
                               times_Hz (value p) = Ok (Hz x)).
  { intros n Hn Hin. destruct (Hnumeric n Hn Hin) as (p & x & Hp & Hx).
    exists p, x. split; [exact Hp|]. rewrite Hx. reflexivity. }
  unfold get_PSR_freq, recognized_count, F0names, getattr.
  rewrite Hm. cbn [require rbind]. rewrite HF0. cbn [require rbind].
  cbn [scan_F0names filter].
  destruct (in_params "F0" m) eqn:HinF0;
    destruct (in_params "nu" m) eqn:Hinnu.
  - destruct (Hnum "nu" ltac:(right; left; reflexivity) Hinnu)
      as (pnu & xnu & Hpnu & _).
    unfold getattr. rewrite HF0. cbn [require rbind]. rewrite Hpnu.
    cbn [require rbind length Nat.eqb Nat.ltb Nat.leb]. split.
    + split; [intros _; eexists; reflexivity | intros _; discriminate].
    + discriminate.
  - destruct (Hnum "F0" ltac:(left; reflexivity) HinF0)
      as (p0 & x0 & Hp0 & Hx0).
    assert (Hp : p0 = F0) by congruence. subst p0.
    unfold getattr. rewrite HF0.
    cbn [require rbind length Nat.eqb Nat.ltb Nat.leb]. split.
    + split; [intros Hne; exfalso; apply Hne; reflexivity|].
      intros [msg Hmsg]. rewrite Hx0 in Hmsg. discriminate Hmsg.
    + intros _ n p x Hn Hin Hp Hx.
      destruct Hn as [<-|[<-|[]]].
      * rewrite HF0 in Hp. injection Hp as <-. rewrite Hx. reflexivity.
      * rewrite Hinnu in Hin. discriminate.
  - destruct (Hnum "nu" ltac:(right; left; reflexivity) Hinnu)
      as (pnu & xnu & Hpnu & Hxnu).
    unfold getattr. rewrite Hpnu.
    cbn [require rbind length Nat.eqb Nat.ltb Nat.leb]. split.
    + split; [intros Hne; exfalso; apply Hne; reflexivity|].
      intros [msg Hmsg]. rewrite Hxnu in Hmsg. discriminate Hmsg.
    + intros _ n p x Hn Hin Hp Hx.
      destruct Hn as [<-|[<-|[]]].
      * rewrite HinF0 in Hin. discriminate.
      * rewrite Hpnu in Hp. injection Hp as <-. rewrite Hx. reflexivity.
  - cbn [length Nat.eqb]. split.
    + split; [intros _; eexists; reflexivity | intros _; discriminate].
    + discriminate.
Qed.

End SpinFrequency.

(** The claim of C8 fails in three ways.  Asked for the frequency of each
    observation ([modelF0] false), the method returns it without counting
    names, here with no recognized name at all.  On a model whose only
    recognized name is [nu], exactly one name matches, with a numeric value,
    and yet no frequency is returned, the attribute [F0] being read first.
    And on a model whose [F0] holds text that is no unit, exactly one name
    matches and the multiplication by Hz raises a [ValueError]. *)
Lemma get_PSR_freq_not_by_count_alone :
  (recognized_count Sample.no_frequency_model = 0 /\
   get_PSR_freq Sample.no_frequency_residuals false
   = Ok (HzArray [100; 100; 100]%Q)) /\
  (recognized_count Sample.nu_model = 1 /\
   in_params "nu" Sample.nu_model = true /\
   option_map value (attr Sample.nu_model "nu") = Some (PNum 100%Q) /\
   get_PSR_freq Sample.nu_residuals true = Raise AttributeError /\
   get_PSR_freq Sample.nu_residuals true <> Ok (Hz 100%Q)) /\
  (recognized_count Sample.text_model = 1 /\
   option_map value (attr Sample.text_model "F0") = Some (PStr "?") /\
   get_PSR_freq Sample.text_residuals true
   = Raise (ValueError "'?' did not parse as unit")).
Proof.
  repeat split. discriminate.
Qed.

Lemma get_PSR_freq_exactly_one_witness :
  recognized_count Sample.model = 1 /\
  get_PSR_freq Sample.ten_residuals true = Ok (Hz 100%Q).
Proof.
  split; [reflexivity|].
  apply (proj2 (get_PSR_freq_exactly_one Sample.ten_residuals Sample.model
                  Sample.F0 eq_refl eq_refl eq_refl
                  ltac:(intros n [<-|[<-|[]]] Hin;
                        [exists Sample.F0, 100%Q; split; reflexivity
                        | discriminate Hin]))
           eq_refl "F0" Sample.F0 100%Q).
  - left. reflexivity.
  - reflexivity.
  - reflexivity.
  - reflexivity.
Defined.

(** ** Epoch averaging *)

Section EpochAveragingReturns.
Context {num phase_t : Type} `{Numeric num} `{PhaseOps num phase_t}.

Lemma dot_T_aligned (U : Matrix num) (v : list num) :
  length (rows U) = length v ->
  dot_T U v =
  Ok (map (fun j =>
             np_sum (zip_with (fun row x => nmul (nth j row nzero) x)
                       (rows U) v))
        (seq 0 (shape1 U))).
Proof.
  intros Hlen. unfold dot_T. rewrite Hlen, Nat.eqb_refl. reflexivity.
Qed.

Lemma wtsum_succeeds (U : Matrix num) (wt a_norm x : list num) :
  length (rows U) = length wt ->
  length x = length wt ->
  length a_norm = shape1 U ->
  exists y : list num, wtsum U wt a_norm x = Ok y.
Proof.
  intros HU Hx Ha. unfold wtsum.
  rewrite broadcast2_same_length by (symmetry; exact Hx).
  cbn [rbind].
  rewrite dot_T_aligned
    by (rewrite zip_with_length by (symmetry; exact Hx); exact HU).
  cbn [rbind].
  rewrite broadcast2_same_length
    by (rewrite length_map, length_seq; symmetry; exact Ha).
  eexists. reflexivity.
Qed.

Lemma average_each_succeeds (f : list num -> result (list num)) (n : nat)
  (items : list (string * list num)) :
  (forall x, length x = n -> exists y, f x = Ok y) ->
  Forall (fun kv => length (snd kv) = n) items ->
  exists ys, average_each f items = Ok ys.
Proof.
  intros Hf. induction 1 as [|[k x] items Hx _ [ys IH]]; cbn [average_each].
  - eexists. reflexivity.
  - destruct (Hf x Hx) as [y ->]. cbn [rbind]. rewrite IH. cbn [rbind].
    eexists. reflexivity.
Qed.

End EpochAveragingReturns.

Section EpochAveragingWeights.
Context {phase_t : Type}.

Lemma np_sum_Rsum (xs : list R) : np_sum xs = Rsum xs.
Proof.
  unfold np_sum, Rsum. apply fold_symmetric; intros; cbn; ring.
Qed.

Lemma Rsum_map_plus {A} (f g : A -> R) (l : list A) :
  Rsum (map (fun a => f a + g a)%R l) = (Rsum (map f l) + Rsum (map g l))%R.
Proof.
  induction l as [|a l IH]; cbn.
  - ring.
  - unfold Rsum in IH. rewrite IH. ring.
Qed.

Lemma Rsum_map_scale {A} (f : A -> R) (w : R) (l : list A) :
  Rsum (map (fun a => f a * w)%R l) = (Rsum (map f l) * w)%R.
Proof.
  induction l as [|a l IH]; cbn.
  - ring.
  - unfold Rsum in IH. rewrite IH. ring.
Qed.

Lemma Rsum_map_zero {A} (l : list A) : Rsum (map (fun _ => 0%R) l) = 0%R.
Proof.
  induction l as [|a l IH]; cbn.
  - reflexivity.
  - unfold Rsum in IH. rewrite IH. ring.
Qed.

Lemma Rsum_indicator (k a n : nat) :
  Rsum (map (fun j => if j =? k then 1%R else 0%R) (seq a n)) =
  if (a <=? k) && (k <? a + n) then 1%R else 0%R.
Proof.
  revert a. induction n as [|n IH]; intros a; cbn [seq map Rsum fold_right].
  - destruct (Nat.leb_spec a k), (Nat.ltb_spec k (a + 0));
      cbn; try reflexivity; lia.
  - fold (Rsum (map (fun j => if j =? k then 1%R else 0%R) (seq (S a) n))).
    rewrite IH.
    destruct (Nat.eqb_spec a k), (Nat.leb_spec a k),
      (Nat.ltb_spec k (a + S n)), (Nat.leb_spec (S a) k),
      (Nat.ltb_spec k (S a + n)); cbn; try lra; lia.
Qed.

Lemma nth_map_seq {A} (f : nat -> A) (d : A) (a n j : nat) :
  j < n -> nth j (map f (seq a n)) d = f (a + j).
Proof.
  revert a j. induction n as [|n IH]; intros a j Hj; [lia|].
  destruct j as [|j]; cbn [seq map nth].
  - rewrite Nat.add_0_r. reflexivity.
  - rewrite IH by lia. f_equal. lia.
Qed.

Lemma nth_one_hot (n k j : nat) :
  j < n ->
  nth j (one_hot n k) 0%R = if j =? k then 1%R else 0%R.
Proof.
  intros Hj. unfold one_hot. rewrite nth_map_seq by exact Hj. reflexivity.
Qed.

Lemma Rsum_one_hot (n k : nat) :
  k < n ->
  Rsum (map (fun j => nth j (one_hot n k) 0%R) (seq 0 n)) = 1%R.
Proof.
  intros Hk.
  rewrite (map_ext_in _ (fun j => if j =? k then 1%R else 0%R)).
  - rewrite Rsum_indicator.
    destruct (Nat.leb_spec 0 k), (Nat.ltb_spec k (0 + n));
      cbn; try reflexivity; lia.
  - intros j Hj. apply in_seq in Hj. apply nth_one_hot. lia.
Qed.

(** The entry of [np.dot(U.T, wt)] for epoch [j]. *)
Lemma column_weight_cons (row : list R) (rs : list (list R)) (w : R)
  (ws : list R) (j : nat) :
  np_sum (zip_with (fun r x => nmul (nth j r nzero) x) (row :: rs) (w :: ws)) =
  (nth j row 0 * w +
   np_sum (zip_with (fun r x => nmul (nth j r nzero) x) rs ws))%R.
Proof.
  rewrite !np_sum_Rsum. reflexivity.
Qed.

(** Every observation being in exactly one epoch, the normalizations of the
    epochs add up to the total of the weights. *)
Lemma normalizations_total (n : nat) (rs : list (list R)) (wt : list R) :
  Forall (fun row => exists j, j < n /\ row = one_hot n j) rs ->
  length rs = length wt ->
  Rsum (map (fun j =>
               np_sum (zip_with (fun r x => nmul (nth j r nzero) x) rs wt))
          (seq 0 n)) = Rsum wt.
Proof.
  intros Hrows. revert wt.
  induction Hrows as [|row rs (k & Hk & ->) _ IH]; intros [|w ws] Hlen;
    try discriminate Hlen.
  - cbn [zip_with combine map]. apply Rsum_map_zero.
  - rewrite (map_ext _ _ (column_weight_cons (one_hot n k) rs w ws)).
    rewrite (Rsum_map_plus
               (fun j => nth j (one_hot n k) 0 * w)%R
               (fun j => np_sum (zip_with
                                   (fun r x => nmul (nth j r nzero) x) rs ws))).
    rewrite (Rsum_map_scale (fun j => nth j (one_hot n k) 0%R) w).
    rewrite Rsum_one_hot by exact Hk.
    rewrite IH by (injection Hlen as Hlen; exact Hlen).
    unfold Rsum. cbn [fold_right]. ring.
Qed.

Lemma normalization_nonneg (n : nat) (rs : list (list R)) (wt : list R)
  (j : nat) :
  Forall (fun row => exists k, k < n /\ row = one_hot n k) rs ->
  Forall (fun w => 0 <= w)%R wt ->
  j < n ->
  (0 <= np_sum (zip_with (fun r x => nmul (nth j r nzero) x) rs wt))%R.
Proof.
  intros Hrows. revert wt.
  induction Hrows as [|row rs (k & Hk & ->) _ IH]; intros wt Hwt Hj.
  - cbn. lra.
  - destruct Hwt as [|w ws Hw Hws].
    + cbn. lra.
    + rewrite column_weight_cons. rewrite nth_one_hot by exact Hj.
      specialize (IH ws Hws Hj).
      destruct (j =? k); lra.
Qed.

Lemma weight_nonneg (e : R) : (0 <= 1 / (e * e))%R.
Proof.
  destruct (Req_dec e 0) as [-> | Hne].
  - rewrite Rmult_0_l. unfold Rdiv. rewrite Rinv_0. lra.
  - apply Rlt_le, Rdiv_lt_0_compat; nra.
Qed.

(** The weight of an epoch whose combined uncertainty has no correlated
    contribution is its normalization. *)
Lemma epoch_weight (a c : R) :
  (0 <= a)%R ->
  (1 / (sqrt (1 / a + c * 0 * 1000000000000) *
        sqrt (1 / a + c * 0 * 1000000000000)) = a)%R.
Proof.
  intros Ha.
  replace (1 / a + c * 0 * 1000000000000)%R with (/ a)%R
    by (unfold Rdiv; ring).
  assert (Hinv : (0 <= / a)%R).
  { destruct (Req_dec a 0) as [-> | Hne].
    - rewrite Rinv_0. lra.
    - apply Rlt_le, Rinv_0_lt_compat. lra. }
  rewrite sqrt_sqrt by exact Hinv.
  unfold Rdiv. rewrite Rinv_inv. ring.
Qed.

(** The combined uncertainties without correlated contribution carry the
    normalizations as weights. *)
Lemma total_weight_of_combined (a_norm ecorr_err2 : list R) :
  length a_norm = length ecorr_err2 ->
  Forall (fun a => 0 <= a)%R a_norm ->
  total_weight
    (map nsqrt
       (zip_with nadd (map (fun a => ndiv nunit a) a_norm)
          (map s2_to_us2 (map (fun x => nmul x nzero) ecorr_err2))))
  = Rsum a_norm.
Proof.
  unfold total_weight. rewrite np_sum_Rsum.
  intros Hlen Hpos. revert ecorr_err2 Hlen.
  induction Hpos as [|a a_norm Ha _ IH]; intros [|c cs] Hlen;
    try discriminate Hlen.
  - reflexivity.
  - cbn [map zip_with combine fst snd Rsum fold_right].
    injection Hlen as Hlen. specialize (IH cs Hlen).
    unfold zip_with, Rsum in IH. rewrite IH.
    f_equal. apply (epoch_weight a c Ha).
Qed.

(** C7.  With the raw uncertainties requested, so that the correlated
    contribution is zero, and a binning matrix that assigns every
    observation to exactly one epoch, [ecorr_average] returns combined
    uncertainties whose total weight, the sum over the epochs of
    [1 / uncertainty ** 2], is the total weight of the raw uncertainties.
    The uncertainties are nonzero: a division by zero is outside the
    arithmetic of the real numbers.  An epoch without observation has a
    normalization of zero and weighs nothing on either side. *)
Theorem ecorr_average_conserves_weight
  (r : Residuals R phase_t) (t : TOAs R) (m : TimingModel R phase_t)
  (ecorr : EcorrNoise R) (others : list (EcorrNoise R))
  (U : Matrix R) (ecorr_err2 tr : list R) :
  toas r = Some t ->
  model r = Some m ->
  ecorr_noise m = Some (ecorr :: others) ->
  ecorr_basis_weight_pair ecorr t = (U, ecorr_err2) ->
  assigns_each_to_one_epoch U (ntoas t) ->
  length ecorr_err2 = shape1 U ->
  time_resids r = Some tr ->
  length tr = ntoas t ->
  Forall (fun kv => length (snd kv) = ntoas t) (noise_resids r) ->
  Forall (fun e => e <> 0%R) (get_errors t) ->
  exists avg : EcorrAverage R,
    ecorr_average r false = Ok avg /\
    total_weight (avg_errors avg) = total_weight (get_errors t).
Proof.
  intros Ht Hm Hecorr Hpair [Hrows Hone] Hlen Htr Htrlen Hnoise _.
  set (wt := map (fun e : R => ndiv nunit (nmul e e)) (get_errors t)).
  assert (Hwt : length (rows U) = length wt)
    by (unfold wt, get_errors; rewrite !length_map; exact Hrows).
  unfold ecorr_average.
  rewrite Hm. cbn [require rbind]. rewrite Hecorr. cbn [index0 rbind].
  rewrite Ht. cbn [require rbind]. rewrite Hpair.
  fold wt. rewrite (dot_T_aligned U wt Hwt). cbn [rbind].
  set (a_norm :=
         map (fun j =>
                np_sum (zip_with (fun row x => nmul (nth j row nzero) x)
                          (rows U) wt)) (seq 0 (shape1 U))).
  assert (Ha : length a_norm = shape1 U)
    by (unfold a_norm; rewrite length_map, length_seq; reflexivity).
  assert (Hsum : forall x : list R,
             length x = ntoas t -> exists y, wtsum U wt a_norm x = Ok y).
  { intros x Hx. apply wtsum_succeeds; [exact Hwt | | exact Ha].
    rewrite <- Hwt, Hrows. exact Hx. }
  destruct (Hsum (get_mjds t)) as [mjds ->];
    [unfold get_mjds; apply length_map|]. cbn [rbind].
  destruct (Hsum (get_freqs t)) as [freqs ->];
    [unfold get_freqs; apply length_map|]. cbn [rbind].
  rewrite Htr. destruct (Hsum tr Htrlen) as [avg_tr ->]. cbn [rbind].
  destruct (average_each_succeeds (wtsum U wt a_norm) (ntoas t)
              (noise_resids r) Hsum Hnoise) as [nr ->]. cbn [rbind].
  rewrite broadcast2_same_length
    by (rewrite !length_map; rewrite Ha, Hlen; reflexivity).
  cbn [rbind]. eexists. split; [reflexivity|]. cbn [avg_errors].
  rewrite total_weight_of_combined.
  - unfold a_norm. rewrite (normalizations_total _ _ _ Hone Hwt).
    unfold total_weight. fold wt. symmetry. apply np_sum_Rsum.
  - rewrite Ha, Hlen. reflexivity.
  - unfold a_norm. apply Forall_forall. intros a Hin.
    apply in_map_iff in Hin. destruct Hin as (j & <- & Hj).
    apply in_seq in Hj.
    apply (normalization_nonneg (shape1 U)); [exact Hone | | lia].
    unfold wt. apply Forall_forall. intros w Hw.
    apply in_map_iff in Hw. destruct Hw as (e & <- & _).
    apply weight_nonneg.
Qed.

End EpochAveragingWeights.

Lemma ecorr_average_conserves_weight_witness :
  get_errors SampleR.observations = [1; 2; 2]%R /\
  rows SampleR.binning = [one_hot 2 0; one_hot 2 1; one_hot 2 1] /\
  exists avg : EcorrAverage R,
    ecorr_average SampleR.residuals false = Ok avg /\
    total_weight (avg_errors avg) = total_weight [1; 2; 2]%R.
Proof.
  split; [reflexivity|]. split; [reflexivity|].
  apply (ecorr_average_conserves_weight SampleR.residuals
           SampleR.observations SampleR.model SampleR.ecorr []
           SampleR.binning [5; 7]%R [0; 0; 0]%R);
    try reflexivity.
  - split; [reflexivity|].
    repeat constructor;
      [exists 0 | exists 1 | exists 1]; (split; [cbn; lia | reflexivity]).
  - repeat constructor.
  - repeat constructor; cbn; lra.
Defined.

(** * Further properties of the methods *)

(** ** What [calc_phase_resids] changes *)

Section PhaseResidualsFrame.
Context {num phase_t : Type} `{Numeric num} `{PhaseOps num phase_t}.
Context {fitter : GLSFitter num phase_t}.

Lemma logs_bind {S A B} (c : M S A) (k : A -> M S B) (s : S) :
  logs (bind c k s) =
  match res (c s) with
  | Ok a => (logs (c s) ++ logs (k a (st (c s))))%list
  | Raise e => logs (c s)
  end.
Proof. unfold bind. destruct (res (c s)); reflexivity. Qed.

Lemma calc_phase_resids_st (r : Residuals num phase_t) (t : TOAs num) :
  toas r = Some t ->
  st (calc_phase_resids r) = set_toas (Some (ensure_delta_pulse_number t)) r.
Proof.
  intros Ht.
  cbv [calc_phase_resids bind get lift assign res st logs].
  rewrite Ht. cbv [require res st logs].
  destruct (tracked_phase r (ensure_delta_pulse_number t)); reflexivity.
Qed.

Lemma calc_phase_resids_logs (r : Residuals num phase_t) :
  logs (calc_phase_resids r) = [].
Proof.
  cbv [calc_phase_resids bind get lift assign res st logs].
  destruct (toas r) as [t|]; cbv [require res st logs]; [|reflexivity].
  destruct (tracked_phase r (ensure_delta_pulse_number t)); reflexivity.
Qed.

Lemma ensure_delta_pulse_number_idempotent (t : TOAs num) :
  ensure_delta_pulse_number (ensure_delta_pulse_number t)
  = ensure_delta_pulse_number t.
Proof.
  unfold ensure_delta_pulse_number at 1.
  unfold ensure_delta_pulse_number.
  destruct (has_delta_pulse_number t) eqn:Hcol.
  - rewrite Hcol. reflexivity.
  - reflexivity.
Qed.

(** X1.  Whatever its outcome, [calc_phase_resids] changes no attribute of
    the object but [toas], and the observations only gain the column
    [delta_pulse_number]: filled with zeros if it was missing, left as it is
    otherwise.  Timestamps, frequencies, uncertainties, pulse numbers and
    wideband annotations stay. *)
Theorem calc_phase_resids_only_adds_column
  (r : Residuals num phase_t) (t : TOAs num) :
  toas r = Some t ->
  exists t' : TOAs num,
    st (calc_phase_resids r) = set_toas (Some t') r /\
    has_delta_pulse_number t' = true /\
    get_mjds t' = get_mjds t /\
    get_freqs t' = get_freqs t /\
    get_errors t' = get_errors t /\
    get_pulse_numbers t' = get_pulse_numbers t /\
    get_flag_value pp_dm t' = get_flag_value pp_dm t /\
    get_flag_value pp_dme t' = get_flag_value pp_dme t /\
    (has_delta_pulse_number t = true -> t' = t) /\
    (has_delta_pulse_number t = false ->
     map delta_pulse_number (table t') = np_zeros (ntoas t)).
Proof.
  intros Ht. exists (ensure_delta_pulse_number t).
  split; [apply calc_phase_resids_st; exact Ht|].
  unfold ensure_delta_pulse_number.
  destruct (has_delta_pulse_number t) eqn:Hcol.
  - repeat split; try reflexivity; try assumption. discriminate.
  - unfold get_mjds, get_freqs, get_errors, get_pulse_numbers, get_flag_value.
    rewrite zero_delta_pulse_number_table, !map_map.
    cbn [has_delta_pulse_number has_pulse_number zero_delta_pulse_number
         mjd freq error pulse_number pp_dm pp_dme delta_pulse_number].
    repeat split; try reflexivity; try discriminate.
    intros _. unfold np_zeros, ntoas.
    induction (table t) as [|row rows IH]; cbn [map length repeat].
    + reflexivity.
    + rewrite IH. reflexivity.
Qed.

(** X2.  [calc_phase_resids] can be repeated: on the object it leaves
    behind it has the same outcome and changes nothing more. *)
Theorem calc_phase_resids_repeatable (r : Residuals num phase_t) :
  res (calc_phase_resids (st (calc_phase_resids r)))
  = res (calc_phase_resids r) /\
  st (calc_phase_resids (st (calc_phase_resids r)))
  = st (calc_phase_resids r).
Proof.
  destruct (toas r) as [t|] eqn:Ht.
  - rewrite (calc_phase_resids_st r t Ht).
    set (t' := ensure_delta_pulse_number t).
    assert (Ht' : toas (set_toas (Some t') r) = Some t') by reflexivity.
    rewrite (calc_phase_resids_res _ t' Ht'), (calc_phase_resids_st _ t' Ht').
    rewrite (calc_phase_resids_res r t Ht).
    unfold t'. rewrite ensure_delta_pulse_number_idempotent.
    split; reflexivity.
  - assert (Hst : st (calc_phase_resids r) = r).
    { cbv [calc_phase_resids bind get lift assign res st logs].
      rewrite Ht. reflexivity. }
    rewrite Hst. split; [reflexivity | exact Hst].
Qed.

End PhaseResidualsFrame.

Lemma calc_phase_resids_only_adds_column_witness :
  has_delta_pulse_number Sample.three_toas = false /\
  exists t' : TOAs Q,
    st (calc_phase_resids Sample.raw_residuals)
    = set_toas (Some t') Sample.raw_residuals /\
    has_delta_pulse_number t' = true /\
    get_errors t' = [1; 2; 3]%Q /\
    map delta_pulse_number (table t') = [0; 0; 0]%Q.
Proof.
  split; [reflexivity|].
  destruct (calc_phase_resids_only_adds_column Sample.raw_residuals
              Sample.three_toas eq_refl)
    as (t' & Hst & Hcol & _ & _ & Herr & _ & _ & _ & _ & Hzero).
  exists t'. split; [exact Hst|]. split; [exact Hcol|].
  split; [exact Herr|]. exact (Hzero eq_refl).
Defined.

(** ** Recomputation and the cache *)

Section Recomputation.
Context {num phase_t : Type} `{Numeric num} `{PhaseOps num phase_t}.
Context {fitter : GLSFitter num phase_t}.

Ltac run_bind :=
  repeat (progress (rewrite ?res_bind, ?st_bind, ?logs_bind;
                    cbn [get ret lift assign raise log_warning
                         res st logs app])).

Lemma calc_time_resids_cached (r : Residuals num phase_t) (pr : list num) :
  phase_resids r = Some pr ->
  res (calc_time_resids r) = rbind (get_PSR_freq r true) (div_frequency pr) /\
  st (calc_time_resids r) = r /\
  logs (calc_time_resids r) = [].
Proof.
  intros Hpr. unfold calc_time_resids. run_bind.
  rewrite Hpr. run_bind.
  destruct (get_PSR_freq r true) as [f|e]; cbn [rbind]; repeat split.
Qed.

Lemma get_PSR_freq_of_model (r r' : Residuals num phase_t) :
  model r = model r' -> get_PSR_freq r true = get_PSR_freq r' true.
Proof. intros Hm. unfold get_PSR_freq. rewrite Hm. reflexivity. Qed.

Lemma get_dof_of_count (r r' : Residuals num phase_t) (t t' : TOAs num) :
  toas r = Some t -> toas r' = Some t' -> ntoas t = ntoas t' ->
  model r = model r' -> get_dof r = get_dof r'.
Proof.
  intros Ht Ht' Hn Hm. unfold get_dof.
  rewrite Ht, Ht', Hm. cbn [require rbind]. rewrite Hn. reflexivity.
Qed.

(** What a successful [update] has computed and stored. *)
Lemma update_ok_inv (r : Residuals num phase_t) :
  res (update r) = Ok tt ->
  exists (t : TOAs num) (m : TimingModel num phase_t) (pr : list num)
         (f : frequency num) (tr : list num) (d : Z),
    toas r = Some t /\ model r = Some m /\
    res (calc_phase_resids r) = Ok pr /\
    get_PSR_freq r true = Ok f /\
    div_frequency pr f = Ok tr /\
    get_dof r = Ok d /\
    st (update r) =
      mkResiduals (Some (ensure_delta_pulse_number t)) (Some m)
        (residual_type r) (subtract_mean r) (use_weighted_mean r)
        (track_mode r) (Some pr) (Some tr) (Some d) None (noise_resids r)
        (scaled_by_F0 r) (unit_ r) /\
    logs (update r) = [].
Proof.
  unfold update. rewrite res_bind, st_bind, logs_bind.
  cbn [get res st logs].
  destruct (toas r) as [t|] eqn:Ht; destruct (model r) as [m|] eqn:Hm;
    cbn [is_None orb]; run_bind; try discriminate.
  rewrite (calc_phase_resids_st r t Ht), calc_phase_resids_logs.
  destruct (res (calc_phase_resids r)) as [pr|e] eqn:Hpr; [|discriminate].
  run_bind.
  set (r1 := set_phase_resids (Some pr)
               (set_toas (Some (ensure_delta_pulse_number t)) r)).
  destruct (calc_time_resids_cached r1 pr eq_refl) as (Hres & Hst & Hlogs).
  rewrite Hres, Hst, Hlogs.
  rewrite (get_PSR_freq_of_model r1 r) by (symmetry; exact Hm || reflexivity).
  destruct (get_PSR_freq r true) as [f|e] eqn:Hf; cbn [rbind];
    [|discriminate].
  destruct (div_frequency pr f) as [tr|e] eqn:Htr; [|discriminate].
  run_bind.
  match goal with
  | |- context [get_dof ?s] =>
      rewrite (get_dof_of_count s r (ensure_delta_pulse_number t) t eq_refl
                 Ht (ensure_delta_pulse_number_ntoas t) eq_refl)
  end.
  destruct (get_dof r) as [d|e] eqn:Hd; [|discriminate].
  intros _. exists t, m, pr, f, tr, d.
  repeat split; try assumption; try reflexivity.
  unfold r1, set_dof, set__chi2, set_time_resids, set_phase_resids, set_toas.
  cbn [toas model residual_type subtract_mean use_weighted_mean track_mode
       phase_resids time_resids dof _chi2 noise_resids scaled_by_F0 unit_].
  rewrite Hm. reflexivity.
Qed.

(** The converse: [update] succeeds as soon as its four computations do. *)
Lemma update_ok_intro (r : Residuals num phase_t) (t : TOAs num)
  (m : TimingModel num phase_t) (pr : list num) (f : frequency num)
  (tr : list num) (d : Z) :
  toas r = Some t -> model r = Some m ->
  res (calc_phase_resids r) = Ok pr ->
  get_PSR_freq r true = Ok f ->
  div_frequency pr f = Ok tr ->
  get_dof r = Ok d ->
  res (update r) = Ok tt /\
  st (update r) =
    mkResiduals (Some (ensure_delta_pulse_number t)) (Some m)
      (residual_type r) (subtract_mean r) (use_weighted_mean r)
      (track_mode r) (Some pr) (Some tr) (Some d) None (noise_resids r)
      (scaled_by_F0 r) (unit_ r) /\
  logs (update r) = [].
Proof.
  intros Ht Hm Hpr Hf Htr Hd.
  unfold update. rewrite res_bind, st_bind, logs_bind.
  cbn [get res st logs]. rewrite Ht, Hm. cbn [is_None orb]. run_bind.
  rewrite (calc_phase_resids_st r t Ht), calc_phase_resids_logs, Hpr.
  run_bind.
  set (r1 := set_phase_resids (Some pr)
               (set_toas (Some (ensure_delta_pulse_number t)) r)).
  destruct (calc_time_resids_cached r1 pr eq_refl) as (Hres & Hst & Hlogs).
  rewrite Hres, Hst, Hlogs.
  rewrite (get_PSR_freq_of_model r1 r) by reflexivity.
  rewrite Hf. cbn [rbind]. rewrite Htr. run_bind.
  match goal with
  | |- context [get_dof ?s] =>
      rewrite (get_dof_of_count s r (ensure_delta_pulse_number t) t eq_refl
                 Ht (ensure_delta_pulse_number_ntoas t) eq_refl)
  end.
  rewrite Hd. run_bind.
  repeat split.
  unfold r1, set_dof, set__chi2, set_time_resids, set_phase_resids, set_toas.
  cbn [toas model residual_type subtract_mean use_weighted_mean track_mode
       phase_resids time_resids dof _chi2 noise_resids scaled_by_F0 unit_].
  rewrite Hm. reflexivity.
Qed.

(** The outcome of [calc_phase_resids] depends on the observations, the
    model and the three settings only, and not on whether the column was
    there before. *)
Lemma calc_phase_resids_once_ensured (r r' : Residuals num phase_t)
  (t : TOAs num) :
  toas r = Some t -> toas r' = Some (ensure_delta_pulse_number t) ->
  model r = model r' ->
  track_mode r = track_mode r' ->
  subtract_mean r = subtract_mean r' ->
  use_weighted_mean r = use_weighted_mean r' ->
  res (calc_phase_resids r') = res (calc_phase_resids r).
Proof.
  intros Ht Ht' Hm Htrack Hsub Hweighted.
  rewrite (calc_phase_resids_res r t Ht), (calc_phase_resids_res r' _ Ht').
  rewrite ensure_delta_pulse_number_idempotent.
  unfold tracked_phase, remove_mean.
  rewrite Hm, Htrack, Hsub, Hweighted. reflexivity.
Qed.

(** X3.  A successful [update] stores the phase residuals that
    [calc_phase_resids] returns, their quotient by the spin frequency as the
    time residuals, and the degrees of freedom; it empties the chi-squared
    cache, logs nothing and leaves the model and the settings of the object
    as they were. *)
Theorem update_refreshes (r : Residuals num phase_t) :
  res (update r) = Ok tt ->
  exists (pr : list num) (f : frequency num) (tr : list num) (d : Z),
    res (calc_phase_resids r) = Ok pr /\
    phase_resids (st (update r)) = Some pr /\
    get_PSR_freq r true = Ok f /\
    div_frequency pr f = Ok tr /\
    time_resids (st (update r)) = Some tr /\
    get_dof r = Ok d /\
    dof (st (update r)) = Some d /\
    _chi2 (st (update r)) = None /\
    logs (update r) = [] /\
    model (st (update r)) = model r /\
    residual_type (st (update r)) = residual_type r /\
    subtract_mean (st (update r)) = subtract_mean r /\
    use_weighted_mean (st (update r)) = use_weighted_mean r /\
    track_mode (st (update r)) = track_mode r /\
    noise_resids (st (update r)) = noise_resids r /\
    scaled_by_F0 (st (update r)) = scaled_by_F0 r /\
    unit_ (st (update r)) = unit_ r.
Proof.
  intros Hok.
  destruct (update_ok_inv r Hok)
    as (t & m & pr & f & tr & d & Ht & Hm & Hpr & Hf & Htr & Hd & Hst & Hlogs).
  exists pr, f, tr, d. rewrite Hst, Hm.
  repeat split; assumption.
Qed.

(** The object that a successful [update] leaves is one that [update]
    leaves as it is. *)
Lemma update_stable_state (r : Residuals num phase_t) (t : TOAs num)
  (m : TimingModel num phase_t) (pr : list num) (f : frequency num)
  (tr : list num) (d : Z) (s : Residuals num phase_t) :
  toas r = Some t -> model r = Some m ->
  res (calc_phase_resids r) = Ok pr ->
  get_PSR_freq r true = Ok f ->
  div_frequency pr f = Ok tr ->
  get_dof r = Ok d ->
  s = mkResiduals (Some (ensure_delta_pulse_number t)) (Some m)
        (residual_type r) (subtract_mean r) (use_weighted_mean r)
        (track_mode r) (Some pr) (Some tr) (Some d) None (noise_resids r)
        (scaled_by_F0 r) (unit_ r) ->
  res (update s) = Ok tt /\ st (update s) = s /\ logs (update s) = [].
Proof.
  intros Ht Hm Hpr Hf Htr Hd Hs.
  assert (Hts : toas s = Some (ensure_delta_pulse_number t))
    by (rewrite Hs; reflexivity).
  assert (Hms : model s = Some m) by (rewrite Hs; reflexivity).
  assert (Hprs : res (calc_phase_resids s) = Ok pr).
  { rewrite <- Hpr.
    apply (calc_phase_resids_once_ensured r s t Ht Hts);
      rewrite Hs; try reflexivity.
    exact Hm. }
  assert (Hfs : get_PSR_freq s true = Ok f).
  { rewrite <- Hf. apply get_PSR_freq_of_model. rewrite Hms, Hm.
    reflexivity. }
  assert (Hds : get_dof s = Ok d).
  { rewrite <- Hd.
    apply (get_dof_of_count s r (ensure_delta_pulse_number t) t Hts Ht
             (ensure_delta_pulse_number_ntoas t)).
    rewrite Hms, Hm. reflexivity. }
  destruct (update_ok_intro s (ensure_delta_pulse_number t) m pr f tr d
              Hts Hms Hprs Hfs Htr Hds) as (Hres2 & Hst2 & Hlogs2).
  split; [exact Hres2|]. split; [|exact Hlogs2].
  rewrite Hst2, ensure_delta_pulse_number_idempotent.
  rewrite Hs. reflexivity.
Qed.

(** X4.  Recomputation is idempotent: an [update] that follows a
    successful [update] succeeds as well, logs nothing and leaves the object
    as the first one left it. *)
Theorem update_idempotent (r : Residuals num phase_t) :
  res (update r) = Ok tt ->
  res (update (st (update r))) = Ok tt /\
  st (update (st (update r))) = st (update r) /\
  logs (update (st (update r))) = [].
Proof.
  intros Hok.
  destruct (update_ok_inv r Hok)
    as (t & m & pr & f & tr & d & Ht & Hm & Hpr & Hf & Htr & Hd & Hst & _).
  apply (update_stable_state r t m pr f tr d (st (update r))
           Ht Hm Hpr Hf Htr Hd Hst).
Qed.

(** [__init__] with observations and a model is [update] on the object
    with nothing computed yet. *)
Lemma Residuals_init_eq (t : TOAs num) (m : TimingModel num phase_t)
  (TRACK : Param num) (residual_type : string) (unit_ : unit_t)
  (subtract_mean use_weighted_mean : bool) (track_mode : string)
  (scaled_by_F0 : bool) :
  attr m "TRACK" = Some TRACK ->
  Residuals_init (Some t) (Some m) residual_type unit_ subtract_mean
    use_weighted_mean track_mode scaled_by_F0
  = match res (update
                 (mkResiduals (Some t) (Some m) residual_type subtract_mean
                    use_weighted_mean
                    (match value TRACK with
                     | PStr s => if String.eqb s "-2"
                                 then "use_pulse_numbers" else track_mode
                     | _ => track_mode
                     end)
                    None None None None [] scaled_by_F0 unit_)) with
    | Ok _ =>
        Ok (st (update
                  (mkResiduals (Some t) (Some m) residual_type subtract_mean
                     use_weighted_mean
                     (match value TRACK with
                      | PStr s => if String.eqb s "-2"
                                  then "use_pulse_numbers" else track_mode
                      | _ => track_mode
                      end)
                     None None None None [] scaled_by_F0 unit_)))
    | Raise e => Raise e
    end.
Proof.
  intros HTRACK. unfold Residuals_init, getattr.
  cbn [require rbind]. rewrite HTRACK. cbn [require rbind].
  set (self := mkResiduals (Some t) (Some m) residual_type subtract_mean
                 use_weighted_mean _ None None None None [] scaled_by_F0
                 unit_).
  unfold update. run_bind. cbn [toas model self is_None orb]. run_bind.
  rewrite (calc_phase_resids_st self t eq_refl).
  destruct (res (calc_phase_resids self)) as [pr|e]; [|reflexivity].
  run_bind.
  set (r1 := set_phase_resids (Some pr)
               (set_toas (Some (ensure_delta_pulse_number t)) self)).
  destruct (calc_time_resids_cached r1 pr eq_refl) as (Hres & Hst & _).
  rewrite Hres, Hst.
  destruct (rbind (get_PSR_freq r1 true) (div_frequency pr)) as [tr|e];
    [|reflexivity].
  run_bind.
  change (get_dof (set__chi2 None (set_time_resids (Some tr) r1)))
    with (get_dof (set_time_resids (Some tr) r1)).
  destruct (get_dof (set_time_resids (Some tr) r1)) as [d|e]; reflexivity.
Qed.


(** X6.  An [update] right after the construction changes nothing: it
    succeeds, logs nothing and leaves the object as constructed. *)
Theorem update_after_init (t : TOAs num) (m : TimingModel num phase_t)
  (residual_type : string) (unit_0 : unit_t)
  (subtract_mean0 use_weighted_mean0 : bool) (track_mode0 : string)
  (scaled_by_F00 : bool) (r : Residuals num phase_t) :
  Residuals_init (Some t) (Some m) residual_type unit_0 subtract_mean0
    use_weighted_mean0 track_mode0 scaled_by_F00 = Ok r ->
  res (update r) = Ok tt /\ st (update r) = r /\ logs (update r) = [].
Proof.
  destruct (attr m "TRACK") as [TRACK|] eqn:HTRACK.
  - rewrite (Residuals_init_eq t m TRACK _ _ _ _ _ _ HTRACK).
    match goal with |- context [update ?x] => set (self := x) end.
    destruct (res (update self)) as [[]|e] eqn:Hok; [|discriminate].
    intros Hr. assert (Hr' : st (update self) = r) by congruence.
    destruct (update_ok_inv self Hok)
      as (t' & m' & pr & f & tr & d & Ht & Hm & Hpr & Hf & Htr & Hd & Hst & _).
    rewrite <- Hr'.
    apply (update_stable_state self t' m' pr f tr d _ Ht Hm Hpr Hf Htr Hd
             Hst).
  - unfold Residuals_init, getattr. cbn [require rbind].
    rewrite HTRACK. discriminate.
Qed.

End Recomputation.

Lemma update_refreshes_witness :
  res (update Sample.mean_subtracted_residuals) = Ok tt /\
  phase_resids (st (update Sample.mean_subtracted_residuals))
  = Some [1 # 12; 1 # 3; -5 # 12]%Q /\
  time_resids (st (update Sample.mean_subtracted_residuals))
  = Some [1 # 1200; 1 # 300; -1 # 240]%Q /\
  dof (st (update Sample.mean_subtracted_residuals)) = Some 0%Z /\
  _chi2 (st (update Sample.mean_subtracted_residuals)) = None.
Proof.
  assert (Hok : res (update Sample.mean_subtracted_residuals) = Ok tt)
    by (vm_compute; reflexivity).
  split; [exact Hok|].
  destruct (update_refreshes Sample.mean_subtracted_residuals Hok)
    as (pr & f & tr & d & Hpr & Hphase & Hf & Htr & Htime & Hd & Hdof
        & Hcache & _).
  vm_compute in Hpr. injection Hpr as <-.
  vm_compute in Hf. injection Hf as <-.
  vm_compute in Htr. injection Htr as <-.
  vm_compute in Hd. injection Hd as <-.
  split; [exact Hphase|]. split; [exact Htime|].
  split; [exact Hdof | exact Hcache].
Defined.

Lemma update_idempotent_witness :
  res (update Sample.mean_subtracted_residuals) = Ok tt /\
  res (update (st (update Sample.mean_subtracted_residuals))) = Ok tt /\
  st (update (st (update Sample.mean_subtracted_residuals)))
  = st (update Sample.mean_subtracted_residuals).
Proof.
  assert (Hok : res (update Sample.mean_subtracted_residuals) = Ok tt)
    by (vm_compute; reflexivity).
  split; [exact Hok|].
  destruct (update_idempotent Sample.mean_subtracted_residuals Hok)
    as (Hres & Hst & _).
  split; [exact Hres | exact Hst].
Defined.


Lemma update_after_init_witness :
  Residuals_init (Some Sample.three_toas) (Some Sample.model) "toa" u_s
    true false "nearest" true
  = Ok (st (update Sample.mean_subtracted_residuals)) /\
  res (update (st (update Sample.mean_subtracted_residuals))) = Ok tt /\
  st (update (st (update Sample.mean_subtracted_residuals)))
  = st (update Sample.mean_subtracted_residuals).
Proof.
  assert (Hok : res (update Sample.mean_subtracted_residuals) = Ok tt)
    by (vm_compute; reflexivity).
  assert (Hinit :
            Residuals_init (Some Sample.three_toas) (Some Sample.model) "toa"
              u_s true false "nearest" true
            = Ok (st (update Sample.mean_subtracted_residuals))).
  { rewrite (Residuals_init_eq Sample.three_toas Sample.model Sample.TRACK
               "toa" u_s true false "nearest" true eq_refl).
    change (match res (update Sample.mean_subtracted_residuals) with
            | Ok _ => Ok (st (update Sample.mean_subtracted_residuals))
            | Raise e => Raise e
            end = Ok (st (update Sample.mean_subtracted_residuals))).
    rewrite Hok. reflexivity. }
  split; [exact Hinit|].
  destruct (update_after_init Sample.three_toas Sample.model "toa" u_s
              true false "nearest" true _ Hinit) as (Hres & Hst & _).
  split; [exact Hres | exact Hst].
Defined.

(** ** The chi-squared cache *)

Section Chi2Cache.
Context {num phase_t : Type} `{Numeric num} `{PhaseOps num phase_t}.
Context {fitter : GLSFitter num phase_t}.

Ltac run_bind :=
  repeat (progress (rewrite ?res_bind, ?st_bind, ?logs_bind;
                    cbn [get ret lift assign raise log_warning
                         res st logs app])).

(** [calc_chi2] assigns nothing. *)
Lemma calc_chi2_st (r : Residuals num phase_t) (full_cov : bool) :
  st (calc_chi2 full_cov r) = r.
Proof.
  unfold calc_chi2. run_bind.
  destruct (model r) as [m|]; cbn [require]; [|reflexivity].
  destruct (has_correlated_errors m).
  - destruct (fit_toas (toas r) m r 0%Z full_cov) as [c|[]];
      run_bind; reflexivity.
  - run_bind. destruct (toas r) as [t|]; cbn [require]; [|reflexivity].
    destruct (any_zero (get_errors t)); [reflexivity|].
    destruct (time_resids r) as [tr|]; [|reflexivity].
    run_bind.
    destruct (broadcast2 ndiv tr (map us_to_s (get_errors t))); reflexivity.
Qed.

(** X7.  The property [chi2] computes once: the value it returns is left
    in the cache and nothing else of the object changes; from then on it
    returns that value, without logging, without changing the object and
    without a new evaluation, whatever the evaluator would now answer. *)
Theorem chi2_computed_once (r : Residuals num phase_t) (c : ext num) :
  res (chi2 r) = Ok c ->
  _chi2 (st (chi2 r)) = Some c /\
  (st (chi2 r) = r \/ st (chi2 r) = set__chi2 (Some c) r) /\
  (forall other : GLSFitter num phase_t,
      res (chi2 (fitter := other) (st (chi2 (fitter := fitter) r))) = Ok c /\
      st (chi2 (fitter := other) (st (chi2 (fitter := fitter) r)))
      = st (chi2 (fitter := fitter) r) /\
      logs (chi2 (fitter := other) (st (chi2 (fitter := fitter) r))) = []).
Proof.
  assert (Hhit : forall (other : GLSFitter num phase_t)
                        (s : Residuals num phase_t),
             _chi2 s = Some c ->
             res (chi2 (fitter := other) s) = Ok c /\
             st (chi2 (fitter := other) s) = s /\
             logs (chi2 (fitter := other) s) = []).
  { intros other s Hs. unfold chi2. run_bind. rewrite Hs.
    repeat split. }
  assert (Hres : res (chi2 r) =
                 match _chi2 r with
                 | Some c0 => Ok c0
                 | None => res (calc_chi2 false r)
                 end).
  { unfold chi2. run_bind. destruct (_chi2 r); [reflexivity|].
    run_bind. destruct (res (calc_chi2 false r)); run_bind; reflexivity. }
  assert (Hst : st (chi2 r) =
                match _chi2 r, res (calc_chi2 false r) with
                | None, Ok c1 => set__chi2 (Some c1) r
                | _, _ => r
                end).
  { unfold chi2. run_bind. destruct (_chi2 r); [reflexivity|].
    run_bind. rewrite calc_chi2_st.
    destruct (res (calc_chi2 false r)); run_bind; reflexivity. }
  rewrite Hres, Hst.
  destruct (_chi2 r) as [c0|] eqn:Hcache.
  - intros Hc. injection Hc as <-.
    split; [exact Hcache|]. split; [left; reflexivity|].
    intros other. apply Hhit. exact Hcache.
  - destruct (res (calc_chi2 false r)) as [c1|e]; [|discriminate].
    intros Hc. injection Hc as <-.
    split; [reflexivity|]. split; [right; reflexivity|].
    intros other. apply Hhit. reflexivity.
Qed.

End Chi2Cache.

Lemma chi2_computed_once_witness :
  _chi2 Sample.five_residuals = None /\
  res (chi2 Sample.five_residuals) = Ok (Finite 7%Q) /\
  _chi2 (st (chi2 Sample.five_residuals)) = Some (Finite 7%Q) /\
  res (chi2 (st (chi2 Sample.five_residuals))) = Ok (Finite 7%Q).
Proof.
  assert (Hok : res (chi2 Sample.five_residuals) = Ok (Finite 7%Q))
    by (vm_compute; reflexivity).
  split; [reflexivity|]. split; [exact Hok|].
  destruct (chi2_computed_once Sample.five_residuals (Finite 7%Q) Hok)
    as (Hcache & _ & Hagain).
  split; [exact Hcache|]. apply (Hagain Sample.fitter).
Defined.

(** ** The shape of the epoch averages *)

Section EpochAveragingShape.
Context {num phase_t : Type} `{Numeric num} `{PhaseOps num phase_t}.
Context {sqrt_op : Sqrt num}.

Lemma rbind_ok_inv {A B} (x : result A) (k : A -> result B) (b : B) :
  rbind x k = Ok b -> exists a : A, x = Ok a /\ k a = Ok b.
Proof.
  destruct x as [a|e]; cbn [rbind]; [|discriminate].
  intros Hk. exists a. split; [reflexivity | exact Hk].
Qed.

Lemma dot_T_length (U : Matrix num) (v y : list num) :
  dot_T U v = Ok y -> length y = shape1 U.
Proof.
  unfold dot_T. destruct (length (rows U) =? length v); [|discriminate].
  intros [= <-]. rewrite length_map, length_seq. reflexivity.
Qed.

Lemma wtsum_length (U : Matrix num) (wt a_norm x y : list num) :
  length a_norm = shape1 U ->
  wtsum U wt a_norm x = Ok y -> length y = shape1 U.
Proof.
  intros Ha Hy. unfold wtsum in Hy.
  apply rbind_ok_inv in Hy. destruct Hy as (wx & _ & Hy).
  apply rbind_ok_inv in Hy. destruct Hy as (s & Hs & Hy).
  apply dot_T_length in Hs.
  rewrite broadcast2_same_length in Hy by (rewrite Hs, Ha; reflexivity).
  injection Hy as <-. rewrite zip_with_length by (rewrite Hs, Ha; reflexivity).
  exact Hs.
Qed.

Lemma average_each_shape (f : list num -> result (list num)) (n : nat)
  (items averaged : list (string * list num)) :
  (forall x y, f x = Ok y -> length y = n) ->
  average_each f items = Ok averaged ->
  map fst averaged = map fst items /\
  Forall (fun kv => length (snd kv) = n) averaged.
Proof.
  intros Hf. revert averaged.
  induction items as [|[k x] items IH]; intros averaged;
    cbn [average_each].
  - intros [= <-]. split; [reflexivity | constructor].
  - intros Hav. apply rbind_ok_inv in Hav. destruct Hav as (a & Ha & Hav).
    apply rbind_ok_inv in Hav. destruct Hav as (others & Hothers & Hav).
    injection Hav as <-. destruct (IH others Hothers) as [Hkeys Hlens].
    cbn [map fst]. rewrite Hkeys. split; [reflexivity|].
    constructor; [exact (Hf x a Ha) | exact Hlens].
Qed.

(** What a successful [ecorr_average] has read and computed. *)
Lemma ecorr_average_ok_inv (r : Residuals num phase_t)
  (use_noise_model : bool) (avg : EcorrAverage num) :
  ecorr_average r use_noise_model = Ok avg ->
  exists (m : TimingModel num phase_t) (ecorr : EcorrNoise num)
         (others : list (EcorrNoise num)) (t : TOAs num) (U : Matrix num)
         (ecorr_err2 tr wt a_norm var : list num),
    model r = Some m /\ ecorr_noise m = Some (ecorr :: others) /\
    toas r = Some t /\ ecorr_basis_weight_pair ecorr t = (U, ecorr_err2) /\
    time_resids r = Some tr /\
    wt = map (fun e => ndiv nunit (nmul e e))
           (if use_noise_model then scaled_toa_uncertainty m t
            else get_errors t) /\
    dot_T U wt = Ok a_norm /\
    wtsum U wt a_norm (get_mjds t) = Ok (avg_mjds avg) /\
    wtsum U wt a_norm (get_freqs t) = Ok (avg_freqs avg) /\
    wtsum U wt a_norm tr = Ok (avg_time_resids avg) /\
    average_each (wtsum U wt a_norm) (noise_resids r)
    = Ok (avg_noise_resids avg) /\
    broadcast2 nadd (map (fun a => ndiv nunit a) a_norm)
      (map s2_to_us2
         (if use_noise_model then ecorr_err2
          else map (fun x => nmul x nzero) ecorr_err2)) = Ok var /\
    avg_errors avg = map nsqrt var /\
    avg_indices avg
    = map (fun i => where_column i 0 (rows U)) (seq 0 (shape1 U)).
Proof.
  unfold ecorr_average. intros Hav.
  apply rbind_ok_inv in Hav. destruct Hav as (m & Hm & Hav).
  apply rbind_ok_inv in Hav. destruct Hav as (ecorr & Hecorr & Hav).
  apply rbind_ok_inv in Hav. destruct Hav as (t & Ht & Hav).
  destruct (ecorr_basis_weight_pair ecorr t) as [U ecorr_err2] eqn:Hpair.
  apply rbind_ok_inv in Hav. destruct Hav as (a_norm & Ha & Hav).
  apply rbind_ok_inv in Hav. destruct Hav as (mjds & Hmjds & Hav).
  apply rbind_ok_inv in Hav. destruct Hav as (freqs & Hfreqs & Hav).
  apply rbind_ok_inv in Hav. destruct Hav as (atr & Htr & Hav).
  apply rbind_ok_inv in Hav. destruct Hav as (nr & Hnr & Hav).
  apply rbind_ok_inv in Hav. destruct Hav as (var & Hvar & Hav).
  injection Hav as <-.
  destruct (model r) as [m'|] eqn:Hmodel; [|discriminate].
  injection Hm as ->.
  destruct (ecorr_noise m) as [[|ecorr' others]|] eqn:Hnoise;
    try discriminate.
  injection Hecorr as ->.
  destruct (toas r) as [t'|] eqn:Htoas; [|discriminate].
  injection Ht as ->.
  destruct (time_resids r) as [tr|] eqn:Htime; [|discriminate].
  exists m, ecorr, others, t, U, ecorr_err2, tr.
  eexists. exists a_norm, var.
  repeat split; try eassumption; try reflexivity.
Qed.

(** X8.  The report of [ecorr_average] is indexed by epoch: the averaged
    timestamps, frequencies and time residuals, every averaged noise
    residual (under the keys of the object, in their order) and the list of
    index lists have one entry per column of the binning matrix; so have the
    uncertainties when the ECORR component gives one variance per column. *)
Theorem ecorr_average_one_entry_per_epoch (r : Residuals num phase_t)
  (use_noise_model : bool) (avg : EcorrAverage num)
  (m : TimingModel num phase_t) (ecorr : EcorrNoise num)
  (others : list (EcorrNoise num)) (t : TOAs num) :
  ecorr_average r use_noise_model = Ok avg ->
  model r = Some m -> ecorr_noise m = Some (ecorr :: others) ->
  toas r = Some t ->
  length (avg_mjds avg) = shape1 (fst (ecorr_basis_weight_pair ecorr t)) /\
  length (avg_freqs avg) = shape1 (fst (ecorr_basis_weight_pair ecorr t)) /\
  length (avg_time_resids avg)
  = shape1 (fst (ecorr_basis_weight_pair ecorr t)) /\
  map fst (avg_noise_resids avg) = map fst (noise_resids r) /\
  Forall (fun kv => length (snd kv)
                    = shape1 (fst (ecorr_basis_weight_pair ecorr t)))
    (avg_noise_resids avg) /\
  length (avg_indices avg) = shape1 (fst (ecorr_basis_weight_pair ecorr t)) /\
  (length (snd (ecorr_basis_weight_pair ecorr t))
   = shape1 (fst (ecorr_basis_weight_pair ecorr t)) ->
   length (avg_errors avg) = shape1 (fst (ecorr_basis_weight_pair ecorr t))).
Proof.
  intros Hav Hm Hecorr Ht.
  destruct (ecorr_average_ok_inv r use_noise_model avg Hav)
    as (m' & ecorr' & others' & t' & U & ecorr_err2 & tr & wt & a_norm & var
        & Hm' & Hecorr' & Ht' & Hpair & _ & _ & Ha & Hmjds & Hfreqs & Htr
        & Hnr & Hvar & Herrors & Hindices).
  rewrite Hm in Hm'. injection Hm' as <-.
  rewrite Hecorr in Hecorr'. injection Hecorr' as <- <-.
  rewrite Ht in Ht'. injection Ht' as <-.
  rewrite Hpair. cbn [fst snd].
  pose proof (dot_T_length U wt a_norm Ha) as Hlen.
  destruct (average_each_shape (wtsum U wt a_norm) (shape1 U)
              (noise_resids r) (avg_noise_resids avg)
              (fun x y => wtsum_length U wt a_norm x y Hlen) Hnr)
    as [Hkeys Hlens].
  repeat split.
  - exact (wtsum_length U wt a_norm _ _ Hlen Hmjds).
  - exact (wtsum_length U wt a_norm _ _ Hlen Hfreqs).
  - exact (wtsum_length U wt a_norm _ _ Hlen Htr).
  - exact Hkeys.
  - exact Hlens.
  - rewrite Hindices, length_map, length_seq. reflexivity.
  - intros Hc. rewrite Herrors, length_map.
    assert (Hl : length (map (fun a => ndiv nunit a) a_norm)
                 = length (map s2_to_us2
                             (if use_noise_model then ecorr_err2
                              else map (fun x => nmul x nzero) ecorr_err2))).
    { destruct use_noise_model; rewrite !length_map; rewrite Hlen, Hc;
        reflexivity. }
    rewrite broadcast2_same_length in Hvar by exact Hl.
    injection Hvar as <-. rewrite zip_with_length by exact Hl.
    rewrite length_map. exact Hlen.
Qed.

End EpochAveragingShape.

Lemma ecorr_average_one_entry_per_epoch_witness :
  shape1 SampleR.binning = 2 /\
  exists avg : EcorrAverage R,
    ecorr_average SampleR.residuals false = Ok avg /\
    length (avg_mjds avg) = 2 /\
    length (avg_time_resids avg) = 2 /\
    map fst (avg_noise_resids avg) = ["ecorr"] /\
    length (avg_indices avg) = 2 /\
    length (avg_errors avg) = 2.
Proof.
  split; [reflexivity|].
  eexists. split; [reflexivity|].
  destruct (ecorr_average_one_entry_per_epoch SampleR.residuals false _
              SampleR.model SampleR.ecorr [] SampleR.observations
              eq_refl eq_refl eq_refl eq_refl)
    as (Hmjds & _ & Htr & Hkeys & _ & Hindices & Herrors).
  split; [exact Hmjds|]. split; [exact Htr|]. split; [exact Hkeys|].
  split; [exact Hindices|]. exact (Herrors eq_refl).
Defined.

(** ** The indices of the epochs *)

Section EpochIndices.
Context {num phase_t : Type} `{Numeric num} `{PhaseOps num phase_t}.
Context {sqrt_op : Sqrt num}.

(** [np.where] on a column: the positions of its nonzero entries, in
    increasing order. *)
Lemma where_column_filter (j k0 : nat) (rs : list (list num)) :
  where_column j k0 rs =
  filter (fun k => negb (is_zero (nth j (nth (k - k0) rs []) nzero)))
    (seq k0 (length rs)).
Proof.
  revert k0. induction rs as [|row rs IH]; intros k0;
    cbn [where_column length seq filter].
  - reflexivity.
  - rewrite Nat.sub_diag. cbn [nth]. rewrite IH.
    assert (Hext :
              filter (fun k => negb (is_zero (nth j (nth (k - S k0) rs [])
                                                nzero)))
                (seq (S k0) (length rs))
              = filter (fun k => negb (is_zero
                                         (nth j (nth (k - k0) (row :: rs) [])
                                            nzero)))
                  (seq (S k0) (length rs))).
    { apply filter_ext_in. intros k Hk. apply in_seq in Hk.
      replace (k - k0) with (S (k - S k0)) by lia. reflexivity. }
    rewrite Hext. destruct (is_zero (nth j row nzero)); reflexivity.
Qed.

Lemma in_where_column (j k : nat) (rs : list (list num)) :
  In k (where_column j 0 rs) <->
  k < length rs /\ is_zero (nth j (nth k rs []) nzero) = false.
Proof.
  rewrite where_column_filter, filter_In, in_seq, Nat.sub_0_r.
  rewrite negb_true_iff. split.
  - intros [[_ Hk] Hz]. split; [exact Hk | exact Hz].
  - intros [Hk Hz]. split; [split; [lia | exact Hk] | exact Hz].
Qed.

Lemma nth_one_hot_entry (n j k : nat) :
  j < n -> nth j (one_hot n k) nzero = if j =? k then nunit else nzero.
Proof.
  intros Hj. unfold one_hot. rewrite nth_map_seq by exact Hj. reflexivity.
Qed.

(** X9.  When the binning matrix assigns every observation to exactly one
    epoch, the index lists of [ecorr_average] say so: the list of epoch [j]
    holds the index [k] exactly when row [k] of the matrix is the row of
    epoch [j], and every observation is in the list of one epoch and of no
    other.  Zero and one are told apart by the test for zero. *)
Theorem ecorr_average_indices (r : Residuals num phase_t)
  (use_noise_model : bool) (avg : EcorrAverage num)
  (m : TimingModel num phase_t) (ecorr : EcorrNoise num)
  (others : list (EcorrNoise num)) (t : TOAs num) :
  is_zero nzero = true -> is_zero nunit = false ->
  ecorr_average r use_noise_model = Ok avg ->
  model r = Some m -> ecorr_noise m = Some (ecorr :: others) ->
  toas r = Some t ->
  assigns_each_to_one_epoch (fst (ecorr_basis_weight_pair ecorr t))
    (ntoas t) ->
  (forall j k : nat,
      j < shape1 (fst (ecorr_basis_weight_pair ecorr t)) ->
      (In k (nth j (avg_indices avg) []) <->
       k < ntoas t /\
       nth k (rows (fst (ecorr_basis_weight_pair ecorr t))) []
       = one_hot (shape1 (fst (ecorr_basis_weight_pair ecorr t))) j)) /\
  (forall k : nat,
      k < ntoas t ->
      exists j : nat,
        j < shape1 (fst (ecorr_basis_weight_pair ecorr t)) /\
        In k (nth j (avg_indices avg) []) /\
        forall j' : nat,
          j' < shape1 (fst (ecorr_basis_weight_pair ecorr t)) ->
          In k (nth j' (avg_indices avg) []) -> j' = j).
Proof.
  intros Hzero Hone Hav Hm Hecorr Ht.
  destruct (ecorr_average_ok_inv r use_noise_model avg Hav)
    as (m' & ecorr' & others' & t' & U & ecorr_err2 & tr & wt & a_norm & var
        & Hm' & Hecorr' & Ht' & Hpair & _ & _ & _ & _ & _ & _ & _ & _ & _
        & Hindices).
  rewrite Hm in Hm'. injection Hm' as <-.
  rewrite Hecorr in Hecorr'. injection Hecorr' as <- <-.
  rewrite Ht in Ht'. injection Ht' as <-.
  rewrite Hpair. cbn [fst]. intros [Hrows Hhot].
  assert (Hrow : forall k, k < ntoas t ->
                   exists jk, jk < shape1 U /\
                              nth k (rows U) [] = one_hot (shape1 U) jk).
  { intros k Hk. rewrite <- Hrows in Hk.
    rewrite Forall_forall in Hhot.
    apply (Hhot (nth k (rows U) [])). apply nth_In. exact Hk. }
  assert (Hentry : forall j k jk,
             j < shape1 U -> jk < shape1 U ->
             nth k (rows U) [] = one_hot (shape1 U) jk ->
             (is_zero (nth j (nth k (rows U) []) nzero) = false <-> j = jk)).
  { intros j k jk Hj Hjk Hk. rewrite Hk, nth_one_hot_entry by exact Hj.
    destruct (Nat.eqb_spec j jk) as [->|Hne].
    - split; [reflexivity | intros _; exact Hone].
    - rewrite Hzero. split; [discriminate | contradiction]. }
  assert (Hlist : forall j k,
             j < shape1 U ->
             (In k (nth j (avg_indices avg) []) <->
              k < ntoas t /\ nth k (rows U) [] = one_hot (shape1 U) j)).
  { intros j k Hj. rewrite Hindices.
    rewrite (nth_map_seq (fun i => where_column i 0 (rows U)) [] 0
               (shape1 U) j Hj).
    cbn [Nat.add]. rewrite in_where_column, Hrows. split.
    - intros [Hk Hz]. split; [exact Hk|].
      destruct (Hrow k Hk) as (jk & Hjk & Hkrow).
      apply (Hentry j k jk Hj Hjk Hkrow) in Hz. subst jk. exact Hkrow.
    - intros [Hk Hkrow]. split; [exact Hk|].
      apply (Hentry j k j Hj Hj Hkrow). reflexivity. }
  split; [exact Hlist|].
  intros k Hk. destruct (Hrow k Hk) as (jk & Hjk & Hkrow).
  exists jk. split; [exact Hjk|]. split.
  - apply Hlist; [exact Hjk | split; assumption].
  - intros j' Hj' Hin. apply Hlist in Hin; [|exact Hj'].
    destruct Hin as [_ Hkrow'].
    apply (Hentry j' k jk Hj' Hjk Hkrow).
    apply (Hentry j' k j' Hj' Hj' Hkrow'). reflexivity.
Qed.

End EpochIndices.

Lemma R_is_zero_zero : is_zero (num := R) nzero = true.
Proof.
  cbn. unfold R_is_zero. destruct (Req_dec_T 0 0); [reflexivity|].
  contradiction.
Qed.

Lemma R_is_zero_one : is_zero (num := R) nunit = false.
Proof.
  cbn. unfold R_is_zero. destruct (Req_dec_T 1 0); [lra | reflexivity].
Qed.

Lemma ecorr_average_indices_witness :
  rows SampleR.binning = [one_hot 2 0; one_hot 2 1; one_hot 2 1] /\
  exists avg : EcorrAverage R,
    ecorr_average SampleR.residuals false = Ok avg /\
    In 0 (nth 0 (avg_indices avg) []) /\
    In 1 (nth 1 (avg_indices avg) []) /\
    In 2 (nth 1 (avg_indices avg) []) /\
    ~ In 0 (nth 1 (avg_indices avg) []).
Proof.
  split; [reflexivity|].
  eexists. split; [reflexivity|].
  assert (Hbinning : assigns_each_to_one_epoch
                       (fst (ecorr_basis_weight_pair SampleR.ecorr
                               SampleR.observations))
                       (ntoas SampleR.observations)).
  { split; [reflexivity|].
    repeat constructor;
      [exists 0 | exists 1 | exists 1]; (split; [cbn; lia | reflexivity]). }
  destruct (ecorr_average_indices SampleR.residuals false _ SampleR.model
              SampleR.ecorr [] SampleR.observations
              R_is_zero_zero R_is_zero_one eq_refl eq_refl eq_refl eq_refl
              Hbinning) as [Hlist _].
  assert (H0 : 0 < 2) by lia. assert (H1 : 1 < 2) by lia.
  split; [apply (Hlist 0 0 H0); split; [cbn; lia | reflexivity]|].
  split; [apply (Hlist 1 1 H1); split; [cbn; lia | reflexivity]|].
  split; [apply (Hlist 1 2 H1); split; [cbn; lia | reflexivity]|].
  intros Hin. apply (Hlist 1 0 H1) in Hin. destruct Hin as [_ Hrow].
  cbn in Hrow. injection Hrow as Hrow _. lra.
Defined.

(** ** Averages of equal values *)

Section EpochAveragingConstant.
Context {phase_t : Type}.

Lemma dot_T_ok_inv (U : Matrix R) (v y : list R) :
  dot_T U v = Ok y ->
  length (rows U) = length v /\
  y = map (fun j =>
             np_sum (zip_with (fun row x => nmul (nth j row nzero) x)
                       (rows U) v))
        (seq 0 (shape1 U)).
Proof.
  unfold dot_T.
  destruct (Nat.eqb_spec (length (rows U)) (length v)) as [Hlen|];
    [|discriminate].
  intros [= <-]. split; [exact Hlen | reflexivity].
Qed.

Lemma column_weight_scaled (j : nat) (x0 : R) (rs : list (list R))
  (ws : list R) :
  np_sum (zip_with (fun r x => nmul (nth j r nzero) x) rs
            (map (fun w => nmul w x0) ws))
  = (x0 * np_sum (zip_with (fun r x => nmul (nth j r nzero) x) rs ws))%R.
Proof.
  revert ws. induction rs as [|row rs IH]; intros [|w ws];
    try (cbn; ring).
  cbn [map]. rewrite !column_weight_cons, IH. cbn. ring.
Qed.

Lemma normalization_pos (n : nat) (rs : list (list R)) (wt : list R)
  (j k : nat) :
  Forall (fun row => exists i, i < n /\ row = one_hot n i) rs ->
  Forall (fun w => 0 < w)%R wt ->
  length rs = length wt ->
  j < n -> k < length rs -> nth k rs [] = one_hot n j ->
  (0 < np_sum (zip_with (fun r x => nmul (nth j r nzero) x) rs wt))%R.
Proof.
  intros Hrows. revert wt k.
  induction Hrows as [|row rs (i & Hi & ->) Hrest IH];
    intros wt k Hwt Hlen Hj Hk Hrow; [cbn in Hk; lia|].
  destruct Hwt as [|w ws Hw Hws]; [discriminate Hlen|].
  injection Hlen as Hlen.
  rewrite column_weight_cons, nth_one_hot by exact Hj.
  assert (Hnonneg :
            (0 <= np_sum (zip_with (fun r x => nmul (nth j r nzero) x)
                            rs ws))%R).
  { apply (normalization_nonneg n); [exact Hrest | | exact Hj].
    apply Forall_forall. intros x Hx.
    rewrite Forall_forall in Hws. apply Rlt_le, Hws, Hx. }
  destruct k as [|k].
  - cbn [nth] in Hrow.
    assert (Hij : i = j).
    { destruct (Nat.eq_dec i j) as [Heq|Hne]; [exact Heq|].
      exfalso.
      assert (Hentry : nth j (one_hot n i) 0%R = nth j (one_hot n j) 0%R)
        by (rewrite Hrow; reflexivity).
      rewrite !nth_one_hot in Hentry by exact Hj.
      rewrite Nat.eqb_refl in Hentry.
      destruct (Nat.eqb_spec j i); [lia | lra]. }
    subst i. rewrite Nat.eqb_refl. lra.
  - cbn [nth length] in Hrow, Hk.
    specialize (IH ws k Hws Hlen Hj ltac:(lia) Hrow).
    destruct (j =? i); lra.
Qed.

(** X10.  The average of equal values is that value: when all the time
    residuals are [x0], nonzero uncertainties weight them and the binning
    matrix assigns every observation to exactly one epoch, [ecorr_average]
    reports [x0] for every epoch that holds an observation. *)
Theorem ecorr_average_of_equal_residuals (r : Residuals R phase_t)
  (use_noise_model : bool) (avg : EcorrAverage R)
  (m : TimingModel R phase_t) (ecorr : EcorrNoise R)
  (others : list (EcorrNoise R)) (t : TOAs R) (x0 : R) :
  ecorr_average r use_noise_model = Ok avg ->
  model r = Some m -> ecorr_noise m = Some (ecorr :: others) ->
  toas r = Some t ->
  time_resids r = Some (repeat x0 (ntoas t)) ->
  assigns_each_to_one_epoch (fst (ecorr_basis_weight_pair ecorr t))
    (ntoas t) ->
  Forall (fun e => e <> 0%R)
    (if use_noise_model then scaled_toa_uncertainty m t else get_errors t) ->
  forall j k : nat,
    j < shape1 (fst (ecorr_basis_weight_pair ecorr t)) ->
    k < ntoas t ->
    nth k (rows (fst (ecorr_basis_weight_pair ecorr t))) []
    = one_hot (shape1 (fst (ecorr_basis_weight_pair ecorr t))) j ->
    nth j (avg_time_resids avg) 0%R = x0.
Proof.
  intros Hav Hm Hecorr Ht Htr.
  destruct (ecorr_average_ok_inv r use_noise_model avg Hav)
    as (m' & ecorr' & others' & t' & U & ecorr_err2 & tr & wt & a_norm & var
        & Hm' & Hecorr' & Ht' & Hpair & Htr' & Hwt & Ha & _ & _ & Havg & _).
  rewrite Hm in Hm'. injection Hm' as <-.
  rewrite Hecorr in Hecorr'. injection Hecorr' as <- <-.
  rewrite Ht in Ht'. injection Ht' as <-.
  rewrite Htr in Htr'. injection Htr' as <-.
  rewrite Hpair. cbn [fst]. intros [Hrows Hhot] Herr j k Hj Hk Hrow.
  destruct (dot_T_ok_inv U wt a_norm Ha) as [Hlen Hnorm].
  assert (Hpos : Forall (fun w => 0 < w)%R wt).
  { rewrite Hwt. apply Forall_forall. intros w Hw.
    apply in_map_iff in Hw. destruct Hw as (e & <- & He).
    rewrite Forall_forall in Herr. specialize (Herr e He).
    cbn. apply Rdiv_lt_0_compat; nra. }
  unfold wtsum in Havg.
  assert (Hwn : length wt = ntoas t) by (rewrite <- Hlen; exact Hrows).
  rewrite broadcast2_same_length in Havg
    by (rewrite repeat_length; exact Hwn).
  cbn [rbind] in Havg. rewrite <- Hwn, zip_with_repeat in Havg.
  rewrite dot_T_aligned in Havg by (rewrite length_map; exact Hlen).
  cbn [rbind] in Havg.
  rewrite broadcast2_same_length in Havg
    by (rewrite Hnorm, !length_map; reflexivity).
  apply (f_equal (fun o => match o with Ok v => v | Raise _ => [] end))
    in Havg.
  cbv beta iota in Havg. rewrite <- Havg.
  rewrite (zip_with_nth ndiv _ a_norm j 0%R 0%R 0%R)
    by (rewrite ?Hnorm, !length_map, length_seq; solve [exact Hj | reflexivity]).
  rewrite Hnorm.
  rewrite !(nth_map_seq _ 0%R 0 (shape1 U) j Hj). cbn [Nat.add].
  rewrite column_weight_scaled.
  pose proof (normalization_pos (shape1 U) (rows U) wt j k Hhot Hpos Hlen Hj
                ltac:(rewrite Hrows; exact Hk) Hrow) as Hnormpos.
  set (a := np_sum (zip_with (fun r0 x => nmul (nth j r0 nzero) x)
                      (rows U) wt)) in *.
  change (x0 * a / a = x0)%R. field. lra.
Qed.

End EpochAveragingConstant.

Lemma ecorr_average_of_equal_residuals_witness :
  time_resids SampleR2.equal_residuals = Some (repeat 5%R 3) /\
  exists avg : EcorrAverage R,
    ecorr_average SampleR2.equal_residuals false = Ok avg /\
    nth 0 (avg_time_resids avg) 0%R = 5%R /\
    nth 1 (avg_time_resids avg) 0%R = 5%R /\
    nth 0 (avg_time_resids avg) 0%R <> 0%R.
Proof.
  split; [reflexivity|].
  eexists. split; [reflexivity|].
  assert (Hbinning : assigns_each_to_one_epoch
                       (fst (ecorr_basis_weight_pair SampleR.ecorr
                               SampleR.observations))
                       (ntoas SampleR.observations)).
  { split; [reflexivity|].
    repeat constructor;
      [exists 0 | exists 1 | exists 1]; (split; [cbn; lia | reflexivity]). }
  assert (Herrors : Forall (fun e => e <> 0%R)
                      (get_errors SampleR.observations))
    by (repeat constructor; cbn; lra).
  pose proof (ecorr_average_of_equal_residuals SampleR2.equal_residuals
                false _ SampleR.model SampleR.ecorr []
                SampleR.observations 5%R
                eq_refl eq_refl eq_refl eq_refl eq_refl Hbinning Herrors)
    as Hequal.
  assert (H0 : nth 0 (avg_time_resids _) 0%R = 5%R)
    by (apply (Hequal 0 0); [cbn; lia | cbn; lia | reflexivity]).
  split; [exact H0|]. split.
  - apply (Hequal 1 2); [cbn; lia | cbn; lia | reflexivity].
  - rewrite H0. lra.
Defined.

(** ** Construction of wideband residuals *)

Section WidebandConstruction.
Context {num phase_t : Type} `{Numeric num}.

(** The values that are present, in order. *)
Lemma take_valid_shifted (seen vals : list (option num)) :
  take_valid (seen ++ vals)%list (valid_indices (length seen) vals)
  = flat_map (fun o => match o with Some v => [v] | None => [] end) vals.
Proof.
  revert seen. induction vals as [|[v|] vals IH]; intros seen;
    cbn [valid_indices flat_map app].
  - reflexivity.
  - unfold take_valid. cbn [flat_map].
    rewrite nth_error_app2 by lia. rewrite Nat.sub_diag. cbn [nth_error app].
    f_equal. specialize (IH (seen ++ [Some v])%list).
    rewrite length_app, Nat.add_1_r, <- app_assoc in IH. exact IH.
  - specialize (IH (seen ++ [None])%list).
    rewrite length_app, Nat.add_1_r, <- app_assoc in IH. exact IH.
Qed.

Lemma take_valid_indices (vals : list (option num)) :
  take_valid vals (valid_indices 0 vals)
  = flat_map (fun o => match o with Some v => [v] | None => [] end) vals.
Proof. exact (take_valid_shifted [] vals). Qed.

Lemma valid_indices_nil (k : nat) (vals : list (option num)) :
  valid_indices k vals = [] <->
  flat_map (fun o => match o with Some v => [v] | None => [] end) vals = [].
Proof.
  revert k. induction vals as [|[v|] vals IH]; intros k;
    cbn [valid_indices flat_map app].
  - split; reflexivity.
  - split; discriminate.
  - apply IH.
Qed.

(** X11.  The outcome of constructing wideband residuals from
    observations and a model.  The measured values are the [pp_dm] flags
    that are present, in the order of the observations, and the errors are
    the [pp_dme] flags that are present; the construction raises a
    [ValueError] when no observation has a value, when none has an error and
    when there are not as many errors as values, and otherwise succeeds with
    [get_model_value] bound to the model, an empty cache and no
    [model_func].  The values and the errors are paired by their position
    among the flags present. *)
Theorem WidebandDMResiduals_init_outcome (t : TOAs num)
  (m : TimingModel num phase_t) (residual_type : string) (unit_0 : unit_t)
  (subtract_mean0 use_weighted_mean0 scaled_by_F00 : bool) :
  WidebandDMResiduals.init (Some t) (Some m) residual_type unit_0
    subtract_mean0 use_weighted_mean0 scaled_by_F00
  = match
      flat_map (fun o => match o with Some v => [v] | None => [] end)
        (map pp_dm (table t)),
      flat_map (fun o => match o with Some v => [v] | None => [] end)
        (map pp_dme (table t))
    with
    | [], _ =>
        Raise (ValueError "Input TOA object does not have wideband DM values")
    | _ :: _, [] =>
        Raise (ValueError "Input TOA object does not have wideband DM errors")
    | (_ :: _) as values, (_ :: _) as errors =>
        if length values =? length errors then
          Ok (WidebandDMResiduals.mk (Some t) (Some m) residual_type unit_0
                subtract_mean0 use_weighted_mean0 u_dm (dm_value m) values
                errors scaled_by_F00 None None)
        else
          Raise (ValueError
                   "Input TOA object' DM data and DM errors do not match.")
    end.
Proof.
  unfold WidebandDMResiduals.init, WidebandDMResiduals.get_dm_data,
    get_flag_value.
  cbn [require rbind].
  pose proof (take_valid_indices (map pp_dm (table t))) as Hvalues.
  pose proof (take_valid_indices (map pp_dme (table t))) as Herrors.
  pose proof (valid_indices_nil 0 (map pp_dm (table t))) as Hnov.
  pose proof (valid_indices_nil 0 (map pp_dme (table t))) as Hnoe.
  destruct (valid_indices 0 (map pp_dm (table t))) as [|i idx].
  - rewrite (proj1 Hnov eq_refl). reflexivity.
  - destruct (flat_map _ (map pp_dm (table t))) as [|v values] eqn:Hv.
    + exfalso. destruct Hnov as [_ Hnil]. discriminate (Hnil eq_refl).
    + destruct (valid_indices 0 (map pp_dme (table t))) as [|i' idx'].
      * rewrite (proj1 Hnoe eq_refl). reflexivity.
      * destruct (flat_map _ (map pp_dme (table t))) as [|e errors] eqn:He.
        -- exfalso. destruct Hnoe as [_ Hnil]. discriminate (Hnil eq_refl).
        -- rewrite Hvalues, Herrors.
           destruct (length (v :: values) =? length (e :: errors));
             reflexivity.
Qed.

End WidebandConstruction.

(** ** Chi-squared of wideband residuals *)

Section WidebandChi2.
Context {num phase_t : Type} `{Numeric num}.

Ltac run_bind :=
  repeat (progress (rewrite ?res_bind, ?st_bind, ?logs_bind;
                    cbn [get ret lift assign raise log_warning
                         res st logs app])).

Lemma sum_of_squared_quotients (rs errs : list num) :
  length rs = length errs ->
  np_sum (map sq (zip_with ndiv rs errs))
  = sum_upto (length errs)
      (fun i => sq (ndiv (nth i rs nzero) (nth i errs nzero))).
Proof.
  intros Hlen. rewrite (np_sum_sum_upto nzero).
  rewrite length_map, zip_with_length by exact Hlen.
  rewrite Hlen. apply sum_upto_ext. intros i Hi.
  rewrite (nth_indep _ nzero (sq nzero))
    by (rewrite length_map, zip_with_length by exact Hlen; lia).
  rewrite map_nth.
  rewrite (zip_with_nth ndiv rs errs i nzero nzero) by lia.
  reflexivity.
Qed.

(** X12.  [WidebandDMResiduals.calc_chi2] looks at the errors first: with
    an error that is exactly zero it returns infinity, whether or not the
    residuals can be computed.  With no zero error it is the sum over the
    measurements of (residual / error) squared when [calc_resids] returns
    one residual per error, and the exception of [calc_resids] when it
    raises. *)
Theorem WidebandDMResiduals_calc_chi2_outcome
  (w : WidebandDMResiduals.t num phase_t) :
  (Exists (fun e => is_zero e = true) (WidebandDMResiduals.dm_error w) ->
   WidebandDMResiduals.calc_chi2 w = Ok Inf) /\
  (Forall (fun e => is_zero e = false) (WidebandDMResiduals.dm_error w) ->
   (forall rs : list num,
       WidebandDMResiduals.calc_resids w = Ok rs ->
       length rs = length (WidebandDMResiduals.dm_error w) ->
       WidebandDMResiduals.calc_chi2 w
       = Ok (Finite
               (sum_upto (length (WidebandDMResiduals.dm_error w))
                  (fun i =>
                     sq (ndiv (nth i rs nzero)
                           (nth i (WidebandDMResiduals.dm_error w) nzero))))))
   /\
   (forall e : exn,
       WidebandDMResiduals.calc_resids w = Raise e ->
       WidebandDMResiduals.calc_chi2 w = Raise e)).
Proof.
  unfold WidebandDMResiduals.calc_chi2, WidebandDMResiduals.resids,
    WidebandDMResiduals.data_error.
  split.
  - intros Hzero. apply any_zero_true_iff in Hzero. rewrite Hzero.
    reflexivity.
  - intros Hnz. apply any_zero_false_iff in Hnz. rewrite Hnz. split.
    + intros rs Hrs Hlen. rewrite Hrs. cbn [rbind].
      rewrite broadcast2_same_length by exact Hlen. cbn [rbind].
      rewrite sum_of_squared_quotients by exact Hlen. reflexivity.
    + intros e He. rewrite He. reflexivity.
Qed.

(** X13.  [update_model] never empties the chi-squared cache: once [chi2]
    has returned a value, it returns the same value after any
    [update_model], computed from the old model. *)
Theorem WidebandDMResiduals_chi2_survives_update_model
  (w : WidebandDMResiduals.t num phase_t) (c : ext num)
  (new_model : option (TimingModel num phase_t)) :
  res (WidebandDMResiduals.chi2 w) = Ok c ->
  WidebandDMResiduals._chi2
    (st (WidebandDMResiduals.update_model new_model
           (st (WidebandDMResiduals.chi2 w)))) = Some c /\
  res (WidebandDMResiduals.chi2
         (st (WidebandDMResiduals.update_model new_model
                (st (WidebandDMResiduals.chi2 w))))) = Ok c.
Proof.
  intros Hc.
  assert (Hcached : WidebandDMResiduals._chi2
                      (st (WidebandDMResiduals.chi2 w)) = Some c).
  { revert Hc. unfold WidebandDMResiduals.chi2. run_bind.
    destruct (WidebandDMResiduals._chi2 w) as [c0|] eqn:Hcache.
    - cbn [ret res st]. intros [= <-]. exact Hcache.
    - run_bind.
      destruct (WidebandDMResiduals.calc_chi2 w) as [c1|e]; [|discriminate].
      run_bind. intros [= <-]. reflexivity. }
  set (s := st (WidebandDMResiduals.chi2 w)) in *.
  assert (Hkept : WidebandDMResiduals._chi2
                    (st (WidebandDMResiduals.update_model new_model s))
                  = Some c).
  { unfold WidebandDMResiduals.update_model. run_bind.
    destruct new_model as [m|]; cbn [require WidebandDMResiduals.set_model
      WidebandDMResiduals.model]; run_bind; exact Hcached. }
  split; [exact Hkept|].
  unfold WidebandDMResiduals.chi2. run_bind. rewrite Hkept. reflexivity.
Qed.

End WidebandChi2.

Lemma WidebandDMResiduals_calc_chi2_outcome_witness :
  WidebandDMResiduals.calc_resids Sample.wideband_residuals
  = Ok [2; 3; 4]%Q /\
  WidebandDMResiduals.dm_error Sample.wideband_residuals = [1; 1; 2]%Q /\
  WidebandDMResiduals.calc_chi2 Sample.wideband_residuals
  = Ok (Finite 17%Q).
Proof.
  split; [reflexivity|]. split; [reflexivity|].
  rewrite (proj1 (proj2 (WidebandDMResiduals_calc_chi2_outcome
                           Sample.wideband_residuals)
                    ltac:(repeat constructor))
             [2; 3; 4]%Q eq_refl eq_refl).
  reflexivity.
Defined.

Lemma WidebandDMResiduals_chi2_survives_update_model_witness :
  res (WidebandDMResiduals.chi2 Sample.wideband_residuals)
  = Ok (Finite 17%Q) /\
  res (WidebandDMResiduals.chi2
         (st (WidebandDMResiduals.update_model (Some Sample.new_model)
                (st (WidebandDMResiduals.chi2 Sample.wideband_residuals)))))
  = Ok (Finite 17%Q).
Proof.
  assert (Hc : res (WidebandDMResiduals.chi2 Sample.wideband_residuals)
               = Ok (Finite 17%Q)) by (vm_compute; reflexivity).
  split; [exact Hc|].
  apply (WidebandDMResiduals_chi2_survives_update_model
           Sample.wideband_residuals (Finite 17%Q) (Some Sample.new_model) Hc).
Defined.

(** ** Residuals with the mean subtracted *)

Section MeanSubtracted.

Lemma Rsum_shifted (xs : list R) (c : R) :
  Rsum (map (fun x => x - c)%R xs) = (Rsum xs - INR (length xs) * c)%R.
Proof.
  induction xs as [|x xs IH].
  - cbn. ring.
  - cbn [map length]. rewrite S_INR. unfold Rsum in *.
    cbn [fold_right]. rewrite IH. ring.
Qed.

Lemma Rsum_centered (xs : list R) :
  Rsum (map (fun x => x - Rsum xs / INR (length xs))%R xs) = 0%R.
Proof.
  rewrite Rsum_shifted. destruct xs as [|x xs].
  - cbn. ring.
  - assert (Hn : INR (length (x :: xs)) <> 0%R)
      by (apply not_0_INR; discriminate).
    field. exact Hn.
Qed.

Lemma Rsum_weighted_shifted (xs ws : list R) (c : R) :
  length xs = length ws ->
  Rsum (zip_with Rmult (map (fun x => x - c)%R xs) ws)
  = (Rsum (zip_with Rmult xs ws) - c * Rsum ws)%R.
Proof.
  revert ws. induction xs as [|x xs IH]; intros [|w ws] Hlen;
    try discriminate Hlen.
  - cbn. ring.
  - injection Hlen as Hlen. specialize (IH ws Hlen).
    unfold zip_with, Rsum in *. cbn [map combine fst snd fold_right].
    rewrite IH. ring.
Qed.

Lemma Rsum_pos (ws : list R) :
  ws <> [] -> Forall (fun w => 0 < w)%R ws -> (0 < Rsum ws)%R.
Proof.
  intros Hne Hpos. induction Hpos as [|w ws Hw Hws IH]; [contradiction|].
  unfold Rsum in *. cbn [fold_right].
  destruct ws as [|w' ws'].
  - cbn. lra.
  - specialize (IH ltac:(discriminate)). lra.
Qed.

Lemma R_is_zero_false (e : R) : R_is_zero e = false -> e <> 0%R.
Proof.
  unfold R_is_zero. destruct (Req_dec_T e 0); [discriminate|].
  intros _. assumption.
Qed.

(** X14.  Over the real numbers, wideband residuals with the mean
    subtracted have mean zero: their sum is zero when the plain mean is
    subtracted, and their sum weighted by [1 / error ** 2] is zero when the
    weighted mean is, there being one error per residual. *)
Theorem WidebandDMResiduals_mean_is_removed {phase_t : Type}
  (w : WidebandDMResiduals.t R phase_t) (rs : list R) :
  WidebandDMResiduals.calc_resids w = Ok rs ->
  WidebandDMResiduals.subtract_mean w = true ->
  (WidebandDMResiduals.use_weighted_mean w = false -> np_sum rs = 0%R) /\
  (WidebandDMResiduals.use_weighted_mean w = true ->
   length rs = length (WidebandDMResiduals.dm_error w) ->
   np_sum (zip_with nmul rs
             (map (fun e => ndiv nunit (sq e))
                (WidebandDMResiduals.dm_error w))) = 0%R).
Proof.
  unfold WidebandDMResiduals.calc_resids. intros Hrs Hsub.
  destruct (require (WidebandDMResiduals.toas w)) as [t|]; [|discriminate].
  cbn [rbind] in Hrs.
  destruct (to_unit u_dm (WidebandDMResiduals.unit_ w)
              (WidebandDMResiduals.get_model_value w t)) as [mv|];
    [|discriminate].
  cbn [rbind] in Hrs.
  destruct (broadcast2 nsub (WidebandDMResiduals.dm_data w) mv) as [xs|];
    [|discriminate].
  cbn [rbind] in Hrs. rewrite Hsub in Hrs. split.
  - intros Hplain. rewrite Hplain in Hrs. cbn [negb] in Hrs.
    injection Hrs as <-. rewrite np_sum_Rsum.
    unfold np_mean. rewrite np_sum_Rsum. apply Rsum_centered.
  - intros Hweighted Hlen. rewrite Hweighted in Hrs. cbn [negb] in Hrs.
    destruct (any_zero (WidebandDMResiduals.dm_error w)) eqn:Hzero;
      [discriminate|].
    set (ws := map (fun e => ndiv nunit (sq e))
                 (WidebandDMResiduals.dm_error w)) in *.
    destruct (broadcast2 nmul xs ws) as [xw|] eqn:Hxw; [|discriminate].
    cbn [rbind] in Hrs.
    apply (f_equal (fun o => match o with Ok v => v | Raise _ => [] end))
      in Hrs.
    cbv beta iota in Hrs. rewrite <- Hrs in *. clear Hrs.
    rewrite length_map in Hlen.
    assert (Hws : length xs = length ws)
      by (unfold ws; rewrite length_map; exact Hlen).
    rewrite broadcast2_same_length in Hxw by exact Hws.
    injection Hxw as <-.
    rewrite !np_sum_Rsum.
    change (Rsum (zip_with Rmult
                    (map (fun x => x - Rsum (zip_with Rmult xs ws) / Rsum ws)%R
                       xs) ws) = 0%R).
    rewrite Rsum_weighted_shifted by exact Hws.
    destruct ws as [|w0 ws0] eqn:Hwseq.
    + destruct xs; [cbn; ring | discriminate Hws].
    + assert (Hpos : (0 < Rsum (w0 :: ws0))%R).
      { apply Rsum_pos; [discriminate|]. rewrite <- Hwseq. unfold ws.
        apply Forall_forall. intros x Hx. apply in_map_iff in Hx.
        destruct Hx as (e & <- & He).
        apply any_zero_false_iff in Hzero. rewrite Forall_forall in Hzero.
        pose proof (R_is_zero_false e (Hzero e He)) as Hene.
        cbn. apply Rdiv_lt_0_compat; nra. }
      field. lra.
Qed.

(** X15.  Over the real numbers, phase residuals with the plain mean
    subtracted add up to zero. *)
Theorem calc_phase_resids_mean_is_removed {phase_t : Type}
  `{PhaseOps R phase_t} (r : Residuals R phase_t) (v : list R) :
  res (calc_phase_resids r) = Ok v ->
  subtract_mean r = true ->
  use_weighted_mean r = false ->
  np_sum v = 0%R.
Proof.
  intros Hv Hsub Hplain.
  destruct (toas r) as [t|] eqn:Ht.
  - rewrite (calc_phase_resids_res r t Ht) in Hv.
    destruct (tracked_phase r (ensure_delta_pulse_number t)) as [full|];
      [|discriminate].
    cbn [rbind] in Hv. unfold remove_mean in Hv.
    rewrite Hsub, Hplain in Hv. cbn [negb rbind] in Hv.
    injection Hv as <-. rewrite np_sum_Rsum.
    unfold np_mean. rewrite np_sum_Rsum. apply Rsum_centered.
  - revert Hv. cbv [calc_phase_resids bind get lift assign res st logs].
    rewrite Ht. discriminate.
Qed.

End MeanSubtracted.

Lemma R_is_zero_nonzero (e : R) : e <> 0%R -> R_is_zero e = false.
Proof.
  intros He. unfold R_is_zero. destruct (Req_dec_T e 0);
    [contradiction | reflexivity].
Qed.

Lemma wideband_sample_error_nonzero :
  any_zero (WidebandDMResiduals.dm_error (SampleR2.wideband true)) = false.
Proof.
  apply any_zero_false_iff.
  repeat constructor; apply R_is_zero_nonzero; lra.
Qed.

Lemma WidebandDMResiduals_mean_is_removed_witness :
  (exists rs,
     WidebandDMResiduals.calc_resids (SampleR2.wideband false) = Ok rs /\
     np_sum rs = 0%R) /\
  (exists rs,
     WidebandDMResiduals.calc_resids (SampleR2.wideband true) = Ok rs /\
     np_sum (zip_with nmul rs
               (map (fun e => ndiv nunit (sq e)) [1; 1; 2]%R)) = 0%R).
Proof.
  split.
  - eexists. split; [reflexivity|].
    refine (proj1 (WidebandDMResiduals_mean_is_removed
                     (SampleR2.wideband false) _ eq_refl eq_refl) eq_refl).
  - assert (Hrs : exists rs,
               WidebandDMResiduals.calc_resids (SampleR2.wideband true)
               = Ok rs /\ length rs = 3).
    { unfold WidebandDMResiduals.calc_resids.
      rewrite wideband_sample_error_nonzero.
      eexists. split; reflexivity. }
    destruct Hrs as (rs & Hrs & Hlen).
    exists rs. split; [exact Hrs|].
    exact (proj2 (WidebandDMResiduals_mean_is_removed
                    (SampleR2.wideband true) rs Hrs eq_refl) eq_refl Hlen).
Defined.

Lemma calc_phase_resids_mean_is_removed_witness :
  exists v, res (calc_phase_resids SampleR2.residuals) = Ok v /\
            length v = 3 /\ np_sum v = 0%R.
Proof.
  eexists. split; [reflexivity|]. split; [reflexivity|].
  refine (calc_phase_resids_mean_is_removed SampleR2.residuals _
            eq_refl eq_refl eq_refl).
Defined.

(** ** The errors of combined residuals *)

Section CombinedErrors.
Context {num phase_t : Type} `{Numeric num}.

Local Notation "'objects'" := (CombinedResiduals.residual_obj num phase_t).
Local Notation "'type_of'" := (@CombinedResiduals.obj_residual_type num phase_t).
Local Notation "'error_of'" := (@CombinedResiduals.obj_data_error num phase_t).

Lemma od_set_keys {A} (k : string) (v : A) (d : list (string * A)) :
  (In k (map fst d) ->
   map fst (CombinedResiduals.od_set k v d) = map fst d) /\
  (~ In k (map fst d) ->
   CombinedResiduals.od_set k v d = (d ++ [(k, v)])%list).
Proof.
  induction d as [|[k' v'] d [IHin IHout]]; cbn [CombinedResiduals.od_set].
  - split; [intros [] | reflexivity].
  - destruct (String.eqb_spec k k') as [->|Hne]; cbn [map fst].
    + split; [reflexivity|]. intros Hout. exfalso. apply Hout. now left.
    + split.
      * intros [Heq|Hin]; [congruence|]. now rewrite (IHin Hin).
      * intros Hout. rewrite IHout; [reflexivity|].
        intros Hin. apply Hout. now right.
Qed.

Lemma od_set_in_keys {A} (k k0 : string) (v : A) (d : list (string * A)) :
  In k0 (map fst (CombinedResiduals.od_set k v d))
  <-> k0 = k \/ In k0 (map fst d).
Proof.
  destruct (in_dec string_dec k (map fst d)) as [Hin|Hout].
  - rewrite (proj1 (od_set_keys k v d) Hin). split; [now right|].
    intros [->|Hk]; assumption.
  - rewrite (proj2 (od_set_keys k v d) Hout), map_app, in_app_iff.
    cbn. split.
    + intros [Hk|[Hk|[]]]; [now right | now left].
    + intros [Hk|Hk]; [right; left; congruence | now left].
Qed.

Lemma od_set_NoDup {A} (k : string) (v : A) (d : list (string * A)) :
  NoDup (map fst d) -> NoDup (map fst (CombinedResiduals.od_set k v d)).
Proof.
  intros Hnd. destruct (in_dec string_dec k (map fst d)) as [Hin|Hout].
  - now rewrite (proj1 (od_set_keys k v d) Hin).
  - rewrite (proj2 (od_set_keys k v d) Hout), map_app. cbn.
    apply NoDup_app; [exact Hnd | repeat constructor; intros [] |].
    intros x Hx [<-|[]]. contradiction.
Qed.

Lemma od_set_in {A} (k k0 : string) (v v0 : A) (d : list (string * A)) :
  NoDup (map fst d) ->
  (In (k0, v0) (CombinedResiduals.od_set k v d)
   <-> (k0 = k /\ v0 = v) \/ (k0 <> k /\ In (k0, v0) d)).
Proof.
  induction d as [|[k' v'] d IH]; cbn [CombinedResiduals.od_set];
    intros Hnd.
  - cbn. split.
    + intros [[= <- <-]|[]]. now left.
    + intros [[-> ->]|[_ []]]. now left.
  - cbn [map fst] in Hnd. inversion Hnd as [|? ? Hout Hnd']; subst.
    specialize (IH Hnd').
    destruct (String.eqb_spec k k') as [->|Hne]; cbn [In].
    + split.
      * intros [[= <- <-]|Hin]; [now left|].
        right. split; [|now right].
        intros ->. apply Hout. apply (in_map fst) in Hin. exact Hin.
      * intros [[-> ->]|[Hk [[= <- <-]|Hin]]];
          [now left | contradiction | now right].
    + rewrite IH. split.
      * intros [[= <- <-]|[[-> ->]|[Hk Hin]]].
        -- right. split; [congruence | now left].
        -- now left.
        -- right. split; [exact Hk | now right].
      * intros [[-> ->]|[Hk [[= <- <-]|Hin]]].
        -- right. now left.
        -- now left.
        -- right. right. split; assumption.
Qed.

(** The dictionary built from a list of items on top of [d]. *)
Lemma od_fold_spec {A} (items d : list (string * A)) :
  NoDup (map fst d) ->
  let dr := fold_left (fun d kv => CombinedResiduals.od_set (fst kv) (snd kv) d)
              items d in
  NoDup (map fst dr) /\
  (forall k, In k (map fst dr) <-> In k (map fst d) \/ In k (map fst items)) /\
  (forall pre k v post,
      items = (pre ++ (k, v) :: post)%list -> ~ In k (map fst post) ->
      In (k, v) dr) /\
  (forall k v, ~ In k (map fst items) -> In (k, v) d -> In (k, v) dr).
Proof.
  revert d. induction items as [|[k0 v0] items IH]; intros d Hnd;
    cbn [fold_left fst snd].
  - cbn zeta. repeat split; try assumption.
    + intros Hk. now left.
    + intros [Hk|[]]. exact Hk.
    + intros pre k v post Hitems. destruct pre; discriminate Hitems.
    + intros k v _ Hin. exact Hin.
  - specialize (IH (CombinedResiduals.od_set k0 v0 d) (od_set_NoDup k0 v0 d Hnd)).
    cbn zeta in IH |- *.
    destruct IH as (IHnd & IHkeys & IHlast & IHkeep).
    split; [exact IHnd|]. split; [|split].
    + intros k. rewrite IHkeys, od_set_in_keys. cbn [map fst In].
      split.
      * intros [[->|Hk]|Hk]; [right; now left | now left | right; now right].
      * intros [Hk|[<-|Hk]]; [left; now right | left; now left | now right].
    + intros pre k v post Hitems Hout.
      destruct pre as [|p pre]; cbn [app] in Hitems.
      * injection Hitems as -> -> ->.
        apply IHkeep; [exact Hout|].
        apply (od_set_in k k v v d Hnd). now left.
      * injection Hitems as _ ->.
        apply (IHlast pre k v post eq_refl Hout).
    + intros k v Hout Hin. cbn [map fst In] in Hout.
      apply IHkeep; [intros Hk; apply Hout; now right|].
      apply (od_set_in k0 k v0 v d Hnd). right. split; [|exact Hin].
      intros ->. apply Hout. now left.
Qed.

Lemma od_fold_distinct {A} (items d : list (string * A)) :
  NoDup (map fst (d ++ items)) ->
  fold_left (fun d kv => CombinedResiduals.od_set (fst kv) (snd kv) d) items d
  = (d ++ items)%list.
Proof.
  revert d. induction items as [|[k0 v0] items IH]; intros d Hnd;
    cbn [fold_left fst snd].
  - now rewrite app_nil_r.
  - assert (Hout : ~ In k0 (map fst d)).
    { rewrite map_app in Hnd. cbn [map fst] in Hnd.
      apply NoDup_remove_2 in Hnd. intros Hin. apply Hnd.
      apply in_or_app. now left. }
    rewrite (proj2 (od_set_keys k0 v0 d) Hout).
    rewrite IH; rewrite <- app_assoc; [reflexivity | exact Hnd].
Qed.

(** The loop of [get_data_error] pairs every object's type with its
    errors, in the order of the objects. *)
Lemma append_errors_ok (objs : list objects)
  (errors out : list (string * list num)) :
  CombinedResiduals.append_errors objs errors = Ok out ->
  exists es : list (list num),
    Forall2 (fun o e => error_of o = Ok e) objs es /\
    out = (errors ++ combine (map type_of objs) es)%list.
Proof.
  revert errors. induction objs as [|o objs IH]; intros errors;
    cbn [CombinedResiduals.append_errors].
  - intros [= <-]. exists []. split; [constructor|].
    cbn. now rewrite app_nil_r.
  - destruct (error_of o) as [e|x] eqn:He; cbn [rbind]; [|discriminate].
    intros Hrest. destruct (IH _ Hrest) as (es & Hes & ->).
    exists (e :: es). split; [constructor; assumption|].
    cbn [map combine]. now rewrite <- app_assoc.
Qed.

Lemma append_errors_all (objs : list objects) (es : list (list num))
  (errors : list (string * list num)) :
  Forall2 (fun o e => error_of o = Ok e) objs es ->
  CombinedResiduals.append_errors objs errors
  = Ok (errors ++ combine (map type_of objs) es)%list.
Proof.
  intros Hes. revert errors.
  induction Hes as [|o e objs es He Hes IH]; intros errors;
    cbn [CombinedResiduals.append_errors map combine].
  - now rewrite app_nil_r.
  - rewrite He. cbn [rbind]. rewrite IH, <- app_assoc. reflexivity.
Qed.

Lemma combine_keys (ks : list string) (es : list (list num)) :
  length ks = length es -> map fst (combine ks es) = ks.
Proof.
  revert es. induction ks as [|k ks IH]; intros [|e es] Hlen;
    try discriminate Hlen; [reflexivity|].
  cbn. f_equal. apply IH. now injection Hlen.
Qed.

Lemma combine_values (ks : list string) (es : list (list num)) :
  length ks = length es -> map snd (combine ks es) = es.
Proof.
  revert es. induction ks as [|k ks IH]; intros [|e es] Hlen;
    try discriminate Hlen; [reflexivity|].
  cbn. f_equal. apply IH. now injection Hlen.
Qed.

Lemma combine_app_aligned {A B} (xs xs' : list A) (ys ys' : list B) :
  length xs = length ys ->
  combine (xs ++ xs') (ys ++ ys') = (combine xs ys ++ combine xs' ys')%list.
Proof.
  revert ys. induction xs as [|x xs IH]; intros [|y ys] Hlen;
    try discriminate Hlen; [reflexivity|].
  cbn. f_equal. apply IH. now injection Hlen.
Qed.

Lemma NoDup_keys_unique {A} (d : list (string * A)) (k : string) (v v' : A) :
  NoDup (map fst d) -> In (k, v) d -> In (k, v') d -> v = v'.
Proof.
  induction d as [|[k0 v0] d IH]; cbn [map fst In]; [intros _ []|].
  intros Hnd Hv Hv'. inversion Hnd as [|? ? Hout Hnd']; subst.
  destruct Hv as [[= -> ->]|Hv], Hv' as [[= <-]|Hv'].
  - reflexivity.
  - exfalso. apply Hout. apply (in_map fst) in Hv'. exact Hv'.
  - exfalso. apply Hout. subst. apply (in_map fst) in Hv. exact Hv.
  - apply (IH Hnd' Hv Hv').
Qed.

(** X16.  The dictionary of [get_data_error] has one entry per residual
    type: its keys are the types of the objects, each once, and the entry of
    a type holds the errors of the last object of that type.  The errors of
    an earlier object of the same type are not in it. *)
Theorem CombinedResiduals_get_data_error_by_type
  (self : CombinedResiduals.t num phase_t) (dr : list (string * list num)) :
  CombinedResiduals.get_data_error self = Ok dr ->
  NoDup (map fst dr) /\
  (forall k : string,
      In k (map fst dr)
      <-> In k (map type_of (CombinedResiduals.residual_objs self))) /\
  (forall (pre : list objects) (o : objects) (post : list objects),
      CombinedResiduals.residual_objs self = (pre ++ o :: post)%list ->
      ~ In (type_of o) (map type_of post) ->
      exists e : list num,
        error_of o = Ok e /\
        forall e' : list num, In (type_of o, e') dr <-> e' = e).
Proof.
  unfold CombinedResiduals.get_data_error.
  destruct (CombinedResiduals.append_errors
              (CombinedResiduals.residual_objs self) []) as [errors|x] eqn:Herr;
    cbn [rbind]; [|discriminate].
  intros Hdr.
  assert (Hdr' : dr = CombinedResiduals.OrderedDict errors) by congruence.
  clear Hdr. subst dr.
  destruct (append_errors_ok _ _ _ Herr) as (es & Hes & ->).
  cbn [app]. set (objs := CombinedResiduals.residual_objs self) in *.
  assert (Hlen : length (map type_of objs) = length es)
    by (rewrite length_map; apply (Forall2_length Hes)).
  destruct (od_fold_spec (combine (map type_of objs) es) [] (NoDup_nil _))
    as (Hnd & Hkeys & Hlast & _).
  cbn zeta in Hnd, Hkeys, Hlast.
  fold (CombinedResiduals.OrderedDict (combine (map type_of objs) es)) in *.
  split; [exact Hnd|]. split.
  - intros k. rewrite Hkeys, (combine_keys _ _ Hlen). cbn.
    split; [intros [[]|Hk]; exact Hk | intros Hk; now right].
  - intros pre o post Hobjs Hout.
    rewrite Hobjs in Hes. apply Forall2_app_inv_l in Hes.
    destruct Hes as (es1 & es2 & Hes1 & Hes2 & ->).
    inversion Hes2 as [|? e ? es3 He Hes3]; subst.
    exists e. split; [exact He|].
    assert (Hin : In (type_of o, e)
                    (CombinedResiduals.OrderedDict
                       (combine (map type_of objs) (es1 ++ e :: es3)))).
    { apply (Hlast (combine (map type_of pre) es1) (type_of o) e
               (combine (map type_of post) es3)).
      - rewrite Hobjs, map_app. cbn [map].
        rewrite combine_app_aligned
          by (rewrite length_map; apply (Forall2_length Hes1)).
        reflexivity.
      - rewrite combine_keys
          by (rewrite length_map; apply (Forall2_length Hes3)).
        exact Hout. }
    intros e'. split.
    + intros Hin'.
      apply (NoDup_keys_unique _ _ _ _ Hnd Hin' Hin).
    + intros ->. exact Hin.
Qed.

(** X17.  When the objects have pairwise different residual types, the
    property [data_error] is the errors of the objects joined in the order
    of the objects, and [np.hstack] refuses an empty list of objects. *)
Theorem CombinedResiduals_data_error_distinct_types
  (self : CombinedResiduals.t num phase_t) (es : list (list num)) :
  NoDup (map type_of (CombinedResiduals.residual_objs self)) ->
  Forall2 (fun o e => error_of o = Ok e)
    (CombinedResiduals.residual_objs self) es ->
  CombinedResiduals.data_error self
  = match es with
    | [] => Raise (ValueError "need at least one array to concatenate")
    | _ => Ok (concat es)
    end.
Proof.
  intros Hnd Hes.
  unfold CombinedResiduals.data_error, CombinedResiduals.get_data_error.
  rewrite (append_errors_all _ es [] Hes). cbn [rbind app].
  assert (Hlen : length (map type_of (CombinedResiduals.residual_objs self))
                 = length es)
    by (rewrite length_map; apply (Forall2_length Hes)).
  unfold CombinedResiduals.OrderedDict.
  rewrite od_fold_distinct
    by (cbn [app]; rewrite (combine_keys _ _ Hlen); exact Hnd).
  cbn [app]. rewrite (combine_values _ _ Hlen).
  unfold CombinedResiduals.np_hstack. destruct es; reflexivity.
Qed.

End CombinedErrors.

Lemma CombinedResiduals_get_data_error_by_type_witness :
  CombinedResiduals.get_data_error Sample3.same_type_twice
  = Ok [("toa", [1; 0]%Q); ("dm", [1; 1; 2]%Q)] /\
  forall e' : list Q,
    In ("toa", e') [("toa", [1; 0]%Q); ("dm", [1; 1; 2]%Q)]
    <-> e' = [1; 0]%Q.
Proof.
  assert (Hdr : CombinedResiduals.get_data_error Sample3.same_type_twice
                = Ok [("toa", [1; 0]%Q); ("dm", [1; 1; 2]%Q)])
    by (vm_compute; reflexivity).
  split; [exact Hdr|].
  destruct (CombinedResiduals_get_data_error_by_type
              Sample3.same_type_twice _ Hdr) as (_ & _ & Hlast).
  destruct (Hlast [CombinedResiduals.Toa Sample.five_residuals;
                   CombinedResiduals.Dm Sample.wideband_residuals]
                  (CombinedResiduals.Toa Sample.zero_error_residuals) []
                  eq_refl (fun Hin => Hin)) as (e & He & Hiff).
  vm_compute in He. injection He as <-. exact Hiff.
Defined.

Lemma CombinedResiduals_data_error_distinct_types_witness :
  CombinedResiduals.data_error Sample.combined
  = Ok [1; 1; 1; 1; 1; 1; 1; 2]%Q.
Proof.
  apply (CombinedResiduals_data_error_distinct_types Sample.combined
           [[1; 1; 1; 1; 1]%Q; [1; 1; 2]%Q]).
  - cbn. repeat constructor; cbn; intuition discriminate.
  - repeat constructor.
Defined.

(** ** Tracking modes, and residuals computed on demand *)

Section OnDemand.
Context {num phase_t : Type} `{Numeric num} `{PhaseOps num phase_t}.

Ltac run_bind :=
  repeat (progress (rewrite ?res_bind, ?st_bind, ?logs_bind;
                    cbn [get ret lift assign raise log_warning
                         res st logs app])).

(** X18.  The tracking mode is never validated: [calc_phase_resids] only
    asks whether it is "use_pulse_numbers", and any other string gives what
    "nearest" gives. *)
Theorem track_mode_is_not_validated (observations : option (TOAs num))
  (model0 : option (TimingModel num phase_t)) (residual_type0 : string)
  (subtract_mean0 use_weighted_mean0 : bool) (track : string)
  (phase_resids0 time_resids0 : option (list num)) (dof0 : option Z)
  (chi2_0 : option (ext num)) (noise_resids0 : list (string * list num))
  (scaled_by_F00 : bool) (unit_0 : unit_t) :
  track <> "use_pulse_numbers" ->
  res (calc_phase_resids
         (mkResiduals observations model0 residual_type0 subtract_mean0
            use_weighted_mean0 track phase_resids0 time_resids0 dof0 chi2_0
            noise_resids0 scaled_by_F00 unit_0))
  = res (calc_phase_resids
           (mkResiduals observations model0 residual_type0 subtract_mean0
              use_weighted_mean0 "nearest" phase_resids0 time_resids0 dof0
              chi2_0 noise_resids0 scaled_by_F00 unit_0)).
Proof.
  intros Hne. apply String.eqb_neq in Hne.
  destruct observations as [t|].
  - rewrite (calc_phase_resids_res
               (mkResiduals (Some t) model0 residual_type0 subtract_mean0
                  use_weighted_mean0 track phase_resids0 time_resids0 dof0
                  chi2_0 noise_resids0 scaled_by_F00 unit_0) t eq_refl).
    rewrite (calc_phase_resids_res
               (mkResiduals (Some t) model0 residual_type0 subtract_mean0
                  use_weighted_mean0 "nearest" phase_resids0 time_resids0
                  dof0 chi2_0 noise_resids0 scaled_by_F00 unit_0) t eq_refl).
    unfold tracked_phase, remove_mean.
    cbn [track_mode model subtract_mean use_weighted_mean].
    rewrite Hne.
    change (String.eqb "nearest" "use_pulse_numbers") with false.
    reflexivity.
  - cbv [calc_phase_resids bind get lift assign res st logs require toas].
    reflexivity.
Qed.

Lemma calc_phase_resids_ok_toas (r : Residuals num phase_t) (v : list num) :
  res (calc_phase_resids r) = Ok v -> exists t, toas r = Some t.
Proof.
  destruct (toas r) as [t|] eqn:Ht; [intros _; now exists t|].
  cbv [calc_phase_resids bind get lift assign res st logs].
  rewrite Ht. discriminate.
Qed.

Lemma resids_hit (s : Residuals num phase_t) (pr : list num) :
  scaled_by_F0 s = false -> phase_resids s = Some pr ->
  res (resids s) = Ok (Some pr) /\ st (resids s) = s /\ logs (resids s) = [].
Proof.
  intros Hs Hpr. unfold resids. run_bind. rewrite Hs, Hpr. repeat split.
Qed.

(** X19.  The property [resids] computes on demand and at most once.  With
    [scaled_by_F0] it hands out the stored time residuals and touches
    nothing.  Without it, a successful call returns phase residuals and
    leaves them in [phase_resids]; from then on it returns them without
    computing, logging or changing the object. *)
Theorem resids_computed_once (r : Residuals num phase_t) :
  (scaled_by_F0 r = true ->
   res (resids r) = Ok (time_resids r) /\ st (resids r) = r) /\
  (scaled_by_F0 r = false ->
   forall v : option (list num),
     res (resids r) = Ok v ->
     exists pr : list num,
       v = Some pr /\
       phase_resids (st (resids r)) = Some pr /\
       (phase_resids r = None -> res (calc_phase_resids r) = Ok pr) /\
       res (resids (st (resids r))) = Ok (Some pr) /\
       st (resids (st (resids r))) = st (resids r) /\
       logs (resids (st (resids r))) = []).
Proof.
  split.
  - intros Hs. unfold resids. run_bind. rewrite Hs. split; reflexivity.
  - intros Hs v Hv.
    destruct (phase_resids r) as [pr|] eqn:Hpr.
    + destruct (resids_hit r pr Hs Hpr) as (Hres & Hst & _).
      rewrite Hres in Hv. rewrite Hst. exists pr.
      split; [congruence|]. split; [exact Hpr|].
      split; [discriminate|]. apply (resids_hit r pr Hs Hpr).
    + assert (Hres : res (resids r)
                     = match res (calc_phase_resids r) with
                       | Ok pr => Ok (Some pr)
                       | Raise e => Raise e
                       end).
      { unfold resids. run_bind. rewrite Hs, Hpr. run_bind.
        destruct (res (calc_phase_resids r)); run_bind; reflexivity. }
      assert (Hst : st (resids r)
                    = match res (calc_phase_resids r) with
                      | Ok pr => set_phase_resids (Some pr)
                                   (st (calc_phase_resids r))
                      | Raise e => st (calc_phase_resids r)
                      end).
      { unfold resids. run_bind. rewrite Hs, Hpr. run_bind.
        destruct (res (calc_phase_resids r)); run_bind; reflexivity. }
      rewrite Hres in Hv. rewrite Hst.
      destruct (res (calc_phase_resids r)) as [pr|e] eqn:Hcalc;
        [|discriminate].
      destruct (calc_phase_resids_ok_toas r pr Hcalc) as [t Ht].
      rewrite (calc_phase_resids_st r t Ht).
      exists pr. split; [congruence|]. split; [reflexivity|].
      split; [reflexivity|].
      apply resids_hit; [exact Hs | reflexivity].
Qed.

(** What a successful [calc_time_resids] has used and stored. *)
Lemma calc_time_resids_ok_inv (r : Residuals num phase_t) (tr : list num) :
  res (calc_time_resids r) = Ok tr ->
  exists (pr : list num) (f : frequency num),
    phase_resids (st (calc_time_resids r)) = Some pr /\
    (phase_resids r = None -> res (calc_phase_resids r) = Ok pr) /\
    (phase_resids r <> None -> phase_resids r = Some pr) /\
    get_PSR_freq r true = Ok f /\
    div_frequency pr f = Ok tr.
Proof.
  destruct (phase_resids r) as [pr|] eqn:Hpr.
  - destruct (calc_time_resids_cached r pr Hpr) as (Hres & Hst & _).
    rewrite Hres, Hst.
    destruct (get_PSR_freq r true) as [f|e]; cbn [rbind]; [|discriminate].
    intros Htr. exists pr, f. repeat split; try assumption.
    discriminate.
  - assert (Hres : res (calc_time_resids r)
                   = match res (calc_phase_resids r) with
                     | Ok pr => rbind (get_PSR_freq r true) (div_frequency pr)
                     | Raise e => Raise e
                     end).
    { unfold calc_time_resids. run_bind. rewrite Hpr. run_bind.
      destruct (res (calc_phase_resids r)) as [pr|e] eqn:Hcalc;
        run_bind; [|reflexivity].
      destruct (calc_phase_resids_ok_toas r pr Hcalc) as [t Ht].
      rewrite (calc_phase_resids_st r t Ht).
      rewrite (get_PSR_freq_of_model _ r) by reflexivity.
      destruct (get_PSR_freq r true); reflexivity. }
    assert (Hst : forall pr, res (calc_phase_resids r) = Ok pr ->
                   phase_resids (st (calc_time_resids r)) = Some pr).
    { intros pr Hcalc. unfold calc_time_resids. run_bind.
      rewrite Hpr. run_bind. rewrite Hcalc. run_bind.
      destruct (calc_phase_resids_ok_toas r pr Hcalc) as [t Ht].
      rewrite (calc_phase_resids_st r t Ht).
      destruct (get_PSR_freq _ true); reflexivity. }
    rewrite Hres.
    destruct (res (calc_phase_resids r)) as [pr|e] eqn:Hcalc;
      [|discriminate].
    destruct (get_PSR_freq r true) as [f|e]; cbn [rbind]; [|discriminate].
    intros Htr. exists pr, f.
    split; [apply Hst; reflexivity|]. split; [reflexivity|].
    split; [intros Hne; now contradiction Hne|]. split; [reflexivity|].
    exact Htr.
Qed.

(** Asked for the frequency of the model, [get_PSR_freq] never returns
    the array of the observations. *)
Lemma get_PSR_freq_model_is_scalar (r : Residuals num phase_t)
  (f : frequency num) :
  get_PSR_freq r true = Ok f ->
  (exists f0 : num, f = Hz f0) \/ (exists s : string, f = HzTimes s).
Proof.
  unfold get_PSR_freq.
  destruct (require (model r)) as [m|]; cbn [rbind]; [|discriminate].
  destruct (getattr m "F0") as [F0|]; cbn [rbind]; [|discriminate].
  destruct (scan_F0names m F0names None 0) as [[v n]|]; cbn [rbind];
    [|discriminate].
  destruct (n =? 0); [discriminate|].
  destruct (1 <? n); [discriminate|].
  destruct v as [[x|s|]|]; cbn [times_Hz]; try discriminate.
  - intros [= <-]. left. now exists x.
  - destruct (Unit_of s) as [k| |]; try discriminate.
    + intros [= <-]. left. now exists k.
    + intros [= <-]. right. now exists s.
Qed.

End OnDemand.

(** X20.  Over the real numbers, the time residuals that
    [calc_time_resids] returns are the stored phase residuals divided by one
    scalar spin frequency, the one that [get_PSR_freq] reads from the model:
    there is one time residual per phase residual, and multiplying by a
    nonzero frequency gives the phase residuals back. *)
Theorem calc_time_resids_round_trip {phase_t : Type} `{PhaseOps R phase_t}
  (r : Residuals R phase_t) (tr : list R) :
  res (calc_time_resids r) = Ok tr ->
  exists (pr : list R) (f0 : R),
    phase_resids (st (calc_time_resids r)) = Some pr /\
    get_PSR_freq r true = Ok (Hz f0) /\
    length tr = length pr /\
    (f0 <> 0%R -> map (fun x => nmul x f0) tr = pr).
Proof.
  intros Htr.
  destruct (calc_time_resids_ok_inv r tr Htr)
    as (pr & f & Hpr & _ & _ & Hf & Hdiv).
  destruct (get_PSR_freq_model_is_scalar r f Hf) as [[f0 ->]|[s ->]];
    [|discriminate Hdiv].
  exists pr, f0. split; [exact Hpr|]. split; [exact Hf|].
  cbn [div_frequency] in Hdiv.
  assert (Htr' : tr = map (fun x => ndiv x f0) pr) by congruence.
  rewrite Htr'. split; [apply length_map|].
  intros Hf0. rewrite map_map. rewrite <- (map_id pr) at 2.
  apply map_ext. intros x. cbn. field. exact Hf0.
Qed.

Lemma track_mode_is_not_validated_witness :
  "use_pulse_number" <> "use_pulse_numbers" /\
  res (calc_phase_resids Sample3.misspelled_track)
  = res (calc_phase_resids Sample.mean_subtracted_residuals).
Proof.
  assert (Hne : "use_pulse_number" <> "use_pulse_numbers") by discriminate.
  split; [exact Hne|].
  exact (track_mode_is_not_validated (Some Sample.three_toas)
           (Some Sample.model) "toa" true false "use_pulse_number"
           None None None None [] true u_s Hne).
Defined.

Lemma resids_computed_once_witness :
  res (resids Sample3.unscaled_residuals)
  = Ok (Some [1 # 12; 1 # 3; -5 # 12]%Q) /\
  exists pr : list Q,
    Some [1 # 12; 1 # 3; -5 # 12]%Q = Some pr /\
    phase_resids (st (resids Sample3.unscaled_residuals)) = Some pr /\
    (phase_resids Sample3.unscaled_residuals = None ->
     res (calc_phase_resids Sample3.unscaled_residuals) = Ok pr) /\
    res (resids (st (resids Sample3.unscaled_residuals))) = Ok (Some pr) /\
    st (resids (st (resids Sample3.unscaled_residuals)))
    = st (resids Sample3.unscaled_residuals) /\
    logs (resids (st (resids Sample3.unscaled_residuals))) = [].
Proof.
  assert (Hv : res (resids Sample3.unscaled_residuals)
               = Ok (Some [1 # 12; 1 # 3; -5 # 12]%Q))
    by (vm_compute; reflexivity).
  split; [exact Hv|].
  exact (proj2 (resids_computed_once Sample3.unscaled_residuals) eq_refl
           _ Hv).
Defined.

Lemma calc_time_resids_round_trip_witness :
  get_PSR_freq SampleR2.residuals true = Ok (Hz 100%R) /\
  exists (tr pr : list R) (f0 : R),
    res (calc_time_resids SampleR2.residuals) = Ok tr /\
    phase_resids (st (calc_time_resids SampleR2.residuals)) = Some pr /\
    get_PSR_freq SampleR2.residuals true = Ok (Hz f0) /\
    length tr = length pr /\
    (f0 <> 0%R -> map (fun x => nmul x f0) tr = pr).
Proof.
  split; [reflexivity|].
  assert (Htr : exists tr : list R,
             res (calc_time_resids SampleR2.residuals) = Ok tr)
    by (eexists; reflexivity).
  destruct Htr as [tr Htr]. exists tr.
  destruct (calc_time_resids_round_trip SampleR2.residuals tr Htr)
    as (pr & f0 & Hpr & Hf & Hlen & Hmul).
  exists pr, f0. repeat split; assumption.
Defined.
